(** * simple-session: the Session entity and the SessionManager store

    A shallow embedding of the module that simple-session exports, with its
    classes [Session] and [SessionManager].  JavaScript objects
    live in a heap indexed by locations, so that the identity comparison of
    [destroyCurrentSession] and the mutation of a session through the
    reference handed over by the dispatcher keep their meaning.  The methods
    of [Session] are functions of the receiver [this]; the methods of
    [SessionManager] are functions of the heap and of the manager record. *)

From Stdlib Require Import ZArith.
From stdpp Require Import base option list strings pretty gmap.

Local Open Scope Z_scope.
#[local] Set Warnings "-register-all,-clear-no-such-hyp".

(** ** JavaScript values and completions *)

Module JS.

(** What a [throw] carries: the code throws string literals; the engine
    raises [TypeError] on a property access through [null] and
    [ReferenceError] on an identifier that no scope binds. *)
Inductive exn : Type :=
| ThrowString (s : string)
| TypeError
| ReferenceError (ident : string).

(** The way a function body ends.  For an [async] function this is the
    state in which the returned promise settles: [Return] fulfils it,
    [Throw] rejects it. *)
Inductive completion (A : Type) : Type :=
| Return (a : A)
| Throw (e : exn).
Arguments Return {A} a.
Arguments Throw {A} e.

Definition thrown {A} (c : completion A) : option exn :=
  match c with Return _ => None | Throw e => Some e end.

(** [Promise.all] over promises that have all settled: the array of the
    values when every one is fulfilled, otherwise the reason of the first
    rejected one in index order. *)
Fixpoint Promise_all {A} (promises : list (completion A)) : completion (list A) :=
  match promises with
  | [] => Return []
  | Return a :: rest =>
      match Promise_all rest with
      | Return values => Return (a :: values)
      | Throw e => Throw e
      end
  | Throw e :: _ => Throw e
  end.

(** [Array.prototype.includes] on an array of strings: a scan from the
    left with strict equality. *)
Fixpoint Array_includes (subject : string) (arr : list string) : bool :=
  match arr with
  | [] => false
  | item :: rest =>
      if decide (item = subject) then true else Array_includes subject rest
  end.

(** The values [JSON.stringify] is given. *)
Inductive json : Type :=
| JNull
| JBool (b : bool)
| JNum (n : Z)
| JStr (s : string)
| JArr (items : list json)
| JObj (fields : list (string * json)).

End JS.
Import JS.

(** ** Collaborators *)

(** The user object is opaque but for [serialize()] and [getPermissions()]. *)
Record User : Type := mkUser {
  user_serialize : json;
  user_getPermissions : list string
}.

(** A connection is a handle of the transport; what it was asked to send is
    kept, per handle, in the order of the calls. *)
Abbreviation connection := nat.
Abbreviation wire := (list (connection * string)).

Definition Connection_send (c : connection) (text : string) (w : wire) : wire :=
  w ++ [(c, text)].

Definition delivered (c : connection) (w : wire) : list string :=
  snd <$> filter (λ d, d.1 = c) w.

(** ** class Session *)

Record Session : Type := mkSession {
  _id : string;
  _dateCreated : Z;
  _dateLastUsed : Z;
  _user : option User;
  _connection : option connection;
  _subscriptions : option (list string)
}.

(** [constructor()]: [uuid] is what [uuidv4()] returned and [now_ms] what
    [Date.now()] returned. *)
Definition Session_new (uuid : string) (now_ms : Z) : Session :=
  let dateCreated := now_ms `div` 1000 in
  {| _id := uuid;
     _dateCreated := dateCreated;
     _dateLastUsed := dateCreated;
     _user := None;
     _connection := None;
     _subscriptions := None |}.

Definition Session_getIdentifier (this : Session) : string := _id this.
Definition Session_getCreatedAt (this : Session) : Z := _dateCreated this.
Definition Session_getUsedAt (this : Session) : Z := _dateLastUsed this.
Definition Session_getConnection (this : Session) : option connection := _connection this.
Definition Session_getUser (this : Session) : option User := _user this.
Definition Session_getSubscriptions (this : Session) : option (list string) :=
  _subscriptions this.

Definition Session_use (now_ms : Z) (this : Session) : Session :=
  {| _id := _id this;
     _dateCreated := _dateCreated this;
     _dateLastUsed := now_ms `div` 1000;
     _user := _user this;
     _connection := _connection this;
     _subscriptions := _subscriptions this |}.

Definition Session_setConnection (c : option connection) (this : Session) : Session :=
  {| _id := _id this;
     _dateCreated := _dateCreated this;
     _dateLastUsed := _dateLastUsed this;
     _user := _user this;
     _connection := c;
     _subscriptions := _subscriptions this |}.

Definition Session_setUser (u : option User) (this : Session) : Session :=
  {| _id := _id this;
     _dateCreated := _dateCreated this;
     _dateLastUsed := _dateLastUsed this;
     _user := u;
     _connection := _connection this;
     _subscriptions := _subscriptions this |}.

Definition set_subscriptions (subs : option (list string)) (this : Session) : Session :=
  {| _id := _id this;
     _dateCreated := _dateCreated this;
     _dateLastUsed := _dateLastUsed this;
     _user := _user this;
     _connection := _connection this;
     _subscriptions := subs |}.

(** [subscribe(subject)]: [this._subscriptions.includes] is a property
    access through [null] when the field is [null]. *)
Definition Session_subscribe (subject : string) (this : Session)
  : completion bool * Session :=
  match _subscriptions this with
  | None => (Throw TypeError, this)
  | Some subs =>
      if negb (Array_includes subject subs)
      then (Return true, set_subscriptions (Some (subs ++ [subject])) this)
      else (Return false, this)
  end.

(** [unsubscribe(subject)] *)
Definition Session_unsubscribe (subject : string) (this : Session)
  : completion bool * Session :=
  match _subscriptions this with
  | None => (Throw TypeError, this)
  | Some subs =>
      (Return true,
       set_subscriptions (Some (filter (λ item, item ≠ subject) subs)) this)
  end.

Section Push.

(** [JSON.stringify] belongs to the platform. *)
Variable JSON_stringify : json → string.

Definition push_envelope (subject : string) (message : json) : json :=
  JObj [("pushMessage", JBool true);
        ("subject", JStr subject);
        ("message", message)].

(** [push(subject, message)] *)
Definition Session_push (subject : string) (message : json)
    (this : Session) (w : wire) : completion bool * wire :=
  match _connection this with
  | Some c =>
      (Return true,
       Connection_send c (JSON_stringify (push_envelope subject message)) w)
  | None => (Return false, w)
  end.

(** [pushIfSubscribed(subject, message)] *)
Definition Session_pushIfSubscribed (subject : string) (message : json)
    (this : Session) (w : wire) : completion bool * wire :=
  match _subscriptions this with
  | None => (Throw TypeError, w)
  | Some subs =>
      if Array_includes subject subs
      then Session_push subject message this w
      else (Return false, w)
  end.

End Push.

(** ** class SessionManager *)

(** Objects are referred to by location; the array [this.sessions] holds
    references, and so does the [session] argument of the RPC methods,
    where [None] is [null]. *)
Abbreviation loc := nat.
Abbreviation heap := (gmap loc Session).

Record SessionManager : Type := mkSessionManager {
  _opts_timeout : option Z;
  sessions : list loc;
  alwaysAllow : list string;
  (** delays of the [setTimeout(this._gc.bind(this), ...)] calls made so far *)
  gc_timers : list Z
}.

Definition set_sessions (ss : list loc) (this : SessionManager) : SessionManager :=
  {| _opts_timeout := _opts_timeout this;
     sessions := ss;
     alwaysAllow := alwaysAllow this;
     gc_timers := gc_timers this |}.

Definition setTimeout_gc (delay : Z) (this : SessionManager) : SessionManager :=
  {| _opts_timeout := _opts_timeout this;
     sessions := sessions this;
     alwaysAllow := alwaysAllow this;
     gc_timers := gc_timers this ++ [delay] |}.

(** [constructor(opts = {})]: [timeout] is [opts.timeout], [None] when the
    option is left out or [null]. *)
Definition SessionManager_new (timeout : option Z) : SessionManager :=
  let this := {| _opts_timeout := timeout;
                 sessions := [];
                 alwaysAllow := [];
                 gc_timers := [] |} in
  match timeout with
  | Some _ => setTimeout_gc 5000 this
  | None => this
  end.

(** A lookup in the heap fails for no reference the program can hold; the
    functions that read through the references of [this.sessions] return
    [None] there, and the store is well formed when they all point to a
    session. *)
Definition store_wf (h : heap) (this : SessionManager) : Prop :=
  Forall (λ l, is_Some (h !! l)) (sessions this).

(** The loop of [_destroySession(id)]: [i] is the index reached, [rest] the
    elements from [i] on, [arr] the whole array. *)
Fixpoint _destroySession_loop (h : heap) (id : string) (arr : list loc)
    (i : nat) (rest : list loc) : option (bool * list loc) :=
  match rest with
  | [] => Some (false, arr)
  | l :: rest' =>
      s ← h !! l;
      if decide (Session_getIdentifier s = id)
      then Some (true, delete i arr)
      else _destroySession_loop h id arr (S i) rest'
  end.

Definition _destroySession (id : string) (h : heap) (this : SessionManager)
  : option (bool * SessionManager) :=
  '(result, arr) ← _destroySession_loop h id (sessions this) 0 (sessions this);
  Some (result, set_sessions arr this).

(** The loop of [_gc()]. *)
Fixpoint _gc_loop (h : heap) (now timeout : Z) (rest sessionsToKeep : list loc)
  : option (list loc) :=
  match rest with
  | [] => Some sessionsToKeep
  | l :: rest' =>
      s ← h !! l;
      let unusedSince := now - Session_getUsedAt s in
      _gc_loop h now timeout rest'
        (if bool_decide (unusedSince < timeout)
         then sessionsToKeep ++ [l]
         else sessionsToKeep)
  end.

(** [_gc()]: [now_ms] is what [(new Date()).getTime()] returned. *)
Definition _gc (now_ms : Z) (h : heap) (this : SessionManager)
  : option SessionManager :=
  match _opts_timeout this with
  | None => Some this
  | Some timeout =>
      let now := now_ms `div` 1000 in
      sessionsToKeep ← _gc_loop h now timeout (sessions this) [];
      Some (setTimeout_gc 5000 (set_sessions sessionsToKeep this))
  end.

(** [getSession(token)] *)
Fixpoint getSession_loop (h : heap) (token : string) (rest : list loc)
  : option (option loc) :=
  match rest with
  | [] => Some None
  | l :: rest' =>
      s ← h !! l;
      if decide (Session_getIdentifier s = token)
      then Some (Some l)
      else getSession_loop h token rest'
  end.

Definition getSession (token : string) (h : heap) (this : SessionManager)
  : option (option loc) :=
  getSession_loop h token (sessions this).

Definition getSessions (this : SessionManager) : list loc := sessions this.

(** [createSession(session, params)]: [new Session()] allocates; neither
    argument is read. *)
Definition createSession (session : option loc) (uuid : string) (now_ms : Z)
    (h : heap) (this : SessionManager) : string * heap * SessionManager :=
  let l := fresh (dom h) in
  let newSession := Session_new uuid now_ms in
  (Session_getIdentifier newSession,
   <[l := newSession]> h,
   set_sessions (sessions this ++ [l]) this).

(** [destroyCurrentSession(session, params)]: the comparison is of
    references. *)
Fixpoint destroyCurrentSession_loop (session : option loc) (arr : list loc)
    (i : nat) (rest : list loc) : completion bool * list loc :=
  match rest with
  | [] => (Throw (ThrowString "Session not found."), arr)
  | l :: rest' =>
      if decide (Some l = session)
      then (Return true, delete i arr)
      else destroyCurrentSession_loop session arr (S i) rest'
  end.

Definition destroyCurrentSession (session : option loc) (this : SessionManager)
  : completion bool * SessionManager :=
  let '(result, arr) :=
    destroyCurrentSession_loop session (sessions this) 0 (sessions this) in
  (result, set_sessions arr this).

(** [state(session, params)] *)
Record state_result : Type := mkState {
  state_user : option json;
  state_permissions : list string
}.

Definition state (session : option loc) (h : heap)
  : option (completion state_result) :=
  match session with
  | None => Some (Throw (ThrowString "no active session"))
  | Some l =>
      s ← h !! l;
      let user := Session_getUser s in
      Some (Return {| state_user := user_serialize <$> user;
                      state_permissions :=
                        match user with
                        | Some u => user_getPermissions u
                        | None => []
                        end |})
  end.

(** [listPermissionsForCurrentSession(session, params)].  The body reads an
    identifier [user] that neither the function nor the module declares, so
    it is looked up in the global object: [global_user] is [None] when the
    global object has no such property, as when Node loads the module, and
    otherwise holds its value, [null] or a user object. *)
Definition listPermissionsForCurrentSession
    (global_user : option (option User)) (session : option loc)
  : completion (list string) :=
  match session with
  | None => Throw (ThrowString "no active session")
  | Some _ =>
      match global_user with
      | None => Throw (ReferenceError "user")
      | Some user =>
          let permissions :=
            match user with
            | Some u => user_getPermissions u
            | None => []
            end in
          Return permissions
      end
  end.

(** The parameters of [push/subscribe] and [push/unsubscribe], a string or
    an array of strings, and their results. *)
Inductive topics : Type :=
| Topic (subject : string)
| TopicArray (subjects : list string).

Inductive outcomes : Type :=
| Outcome (result : bool)
| OutcomeArray (results : list bool).

(** The [for] loop that fills [promises]: no call awaits anything, so each
    body has run to its end when the call returns its promise. *)
Fixpoint promises_loop (method : string → Session → completion bool * Session)
    (subjects : list string) (this : Session) (promises : list (completion bool))
  : list (completion bool) * Session :=
  match subjects with
  | [] => (promises, this)
  | subject :: rest =>
      let '(promise, this') := method subject this in
      promises_loop method rest this' (promises ++ [promise])
  end.

Definition rpc_topics (method : string → Session → completion bool * Session)
    (session : option loc) (params : topics) (h : heap)
  : option (completion outcomes * heap) :=
  match session with
  | None => Some (Throw (ThrowString "no active session"), h)
  | Some l =>
      s ← h !! l;
      match params with
      | Topic subject =>
          let '(result, s') := method subject s in
          Some (match result with
                | Return b => Return (Outcome b)
                | Throw e => Throw e
                end, <[l := s']> h)
      | TopicArray subjects =>
          let '(promises, s') := promises_loop method subjects s [] in
          Some (match Promise_all promises with
                | Return results => Return (OutcomeArray results)
                | Throw e => Throw e
                end, <[l := s']> h)
      end
  end.

(** [subscribe(session, params)] and [unsubscribe(session, params)] *)
Definition SessionManager_subscribe := rpc_topics Session_subscribe.
Definition SessionManager_unsubscribe := rpc_topics Session_unsubscribe.

(** [destroySession(session, params)]: [session] is not read. *)
Definition destroySession (session : option loc) (params : string)
    (h : heap) (this : SessionManager)
  : option (completion bool * SessionManager) :=
  '(result, this') ← _destroySession params h this;
  if negb result
  then Some (Throw (ThrowString "Session not found"), this')
  else Some (Return true, this').

(** [push(session, subject, message)] and
    [pushIfSubscribed(session, subject, message)] of the manager hand the
    call over to the session; with [null] the property access throws. *)
Definition SessionManager_push (JSON_stringify : json → string)
    (session : option loc) (subject : string) (message : json)
    (h : heap) (w : wire) : option (completion bool * wire) :=
  match session with
  | None => Some (Throw TypeError, w)
  | Some l => s ← h !! l; Some (Session_push JSON_stringify subject message s w)
  end.

Definition SessionManager_pushIfSubscribed (JSON_stringify : json → string)
    (session : option loc) (subject : string) (message : json)
    (h : heap) (w : wire) : option (completion bool * wire) :=
  match session with
  | None => Some (Throw TypeError, w)
  | Some l =>
      s ← h !! l;
      Some (Session_pushIfSubscribed JSON_stringify subject message s w)
  end.





(** [registerRpcMethods(rpc, prefix = "session")]: the calls made on [rpc],
    in their order.  A handler is the method of the manager that was bound;
    a parameter specification is the object literal given for it. *)
Inductive handler : Type :=
| bound_createSession
| bound_destroyCurrentSession
| bound_state
| bound_listPermissionsForCurrentSession
| bound_subscribe
| bound_unsubscribe
| bound_listSessions
| bound_destroySession.

Record param_spec : Type := mkParamSpec {
  spec_type : string;
  spec_contains : option string;
  spec_description : option string
}.

Inductive rpc_call : Type :=
| addMethod (name : string) (method : handler) (specs : list param_spec)
| addAlwaysAllow (name : string).

(** [prefix] is [None] when the argument is left out. *)
Definition registerRpcMethods (prefix : option string) : list rpc_call :=
  let prefix := default "session" prefix in
  let prefix := if decide (prefix ≠ "") then prefix +:+ "/" else prefix in
  let none := [mkParamSpec "none" None None] in
  let topics :=
    [mkParamSpec "string" None (Some "Topic");
     mkParamSpec "array" (Some "string") (Some "Array containing topics")] in
  [addMethod (prefix +:+ "create") bound_createSession none;
   addAlwaysAllow (prefix +:+ "create");
   addMethod (prefix +:+ "destroy") bound_destroyCurrentSession none;
   addMethod (prefix +:+ "state") bound_state none;
   addMethod (prefix +:+ "permissions")
     bound_listPermissionsForCurrentSession none;
   addMethod (prefix +:+ "push/subscribe") bound_subscribe topics;
   addMethod (prefix +:+ "push/unsubscribe") bound_unsubscribe topics;
   addMethod (prefix +:+ "management/list") bound_listSessions none;
   addMethod (prefix +:+ "management/destroy") bound_destroySession
     [mkParamSpec "string" None
        (Some "Unique identifier of the session that will be destroyed")]].

(** The names [rpc.addMethod] was given, and those [rpc.addAlwaysAllow] was
    given. *)
Definition registered_names (calls : list rpc_call) : list string :=
  omap (λ c, match c with addMethod name _ _ => Some name | _ => None end) calls.

Definition always_allowed (calls : list rpc_call) : list string :=
  omap (λ c, match c with addAlwaysAllow name => Some name | _ => None end) calls.

(** ** Predicates of the properties, and sample states *)

(** The field holds an array without repetition. *)
Definition subscriptions_valid (this : Session) : Prop :=
  ∃ subs, _subscriptions this = Some subs ∧ NoDup subs.

Definition subscribed (subject : string) (this : Session) : Prop :=
  ∃ subs, _subscriptions this = Some subs ∧ subject ∈ subs.

(** The calls that assign a field of a session. *)
Inductive Session_call : Type :=
| call_use (now_ms : Z)
| call_setConnection (c : option connection)
| call_setUser (u : option User)
| call_subscribe (subject : string)
| call_unsubscribe (subject : string).

Definition Session_run (this : Session) (c : Session_call) : Session :=
  match c with
  | call_use now_ms => Session_use now_ms this
  | call_setConnection c => Session_setConnection c this
  | call_setUser u => Session_setUser u this
  | call_subscribe subject => (Session_subscribe subject this).2
  | call_unsubscribe subject => (Session_unsubscribe subject this).2
  end.

(** No two entries of the store carry the same identifier. *)
Definition ids_distinct (h : heap) (ss : list loc) : Prop :=
  ∀ (i j : nat) (l1 l2 : loc) (s1 s2 : Session),
    ss !! i = Some l1 → ss !! j = Some l2 →
    h !! l1 = Some s1 → h !! l2 = Some s2 →
    Session_getIdentifier s1 = Session_getIdentifier s2 → i = j.

(** No session of [ss] has identifier [id]. *)
Definition id_absent (h : heap) (id : string) (ss : list loc) : Prop :=
  Forall (λ l, ∃ s, h !! l = Some s ∧ Session_getIdentifier s ≠ id) ss.

(** The test of [_gc] on one entry of the store. *)
Definition idle_below (h : heap) (now timeout : Z) (l : loc) : bool :=
  match h !! l with
  | Some s => bool_decide (now - Session_getUsedAt s < timeout)
  | None => false
  end.

(** A store with two sessions, made by [createSession] at the seconds 1000
    and 2000, in a manager with a timeout of an hour. *)
Definition sample_store : string * heap * SessionManager :=
  let '(_, h, this) :=
    createSession None "s0" 1000000 ∅ (SessionManager_new (Some 3600)) in
  createSession None "s1" 2000000 h this.

Definition sample_heap : heap := sample_store.1.2.
Definition sample_manager : SessionManager := sample_store.2.

(** The same heap after [_subscriptions] of the first session has been
    assigned an empty array from outside the class. *)
Definition sample_heap_array : heap :=
  <[0%nat := set_subscriptions (Some []) (Session_new "s0" 1000000)]> sample_heap.

(** The identifiers of the store, in its order. *)
Definition store_ids (h : heap) (ss : list loc) : list (option string) :=
  (λ l, Session_getIdentifier <$> h !! l) <$> ss.

(** The store as the manager keeps it: the references point to sessions,
    none occurs twice, and no identifier occurs twice. *)
Definition store_ok (h : heap) (this : SessionManager) : Prop :=
  store_wf h this ∧ NoDup (sessions this) ∧ ids_distinct h (sessions this).

(** The states that a manager made with [timeout] reaches through the
    methods of the two classes: the RPC methods, the sweep, and the calls
    on a session that assign a field; [uuidv4()] is taken to return an
    identifier that no session of the store carries. *)
Inductive reachable (timeout : option Z) : heap → SessionManager → Prop :=
| reachable_new :
    reachable timeout ∅ (SessionManager_new timeout)
| reachable_createSession h this session uuid now_ms :
    reachable timeout h this →
    id_absent h uuid (sessions this) →
    reachable timeout (createSession session uuid now_ms h this).1.2
                      (createSession session uuid now_ms h this).2
| reachable_destroyCurrentSession h this session :
    reachable timeout h this →
    reachable timeout h (destroyCurrentSession session this).2
| reachable_destroySession h this session id r this' :
    reachable timeout h this →
    destroySession session id h this = Some (r, this') →
    reachable timeout h this'
| reachable_gc h this now_ms this' :
    reachable timeout h this →
    _gc now_ms h this = Some this' →
    reachable timeout h this'
| reachable_subscribe h this session params r h' :
    reachable timeout h this →
    SessionManager_subscribe session params h = Some (r, h') →
    reachable timeout h' this
| reachable_unsubscribe h this session params r h' :
    reachable timeout h this →
    SessionManager_unsubscribe session params h = Some (r, h') →
    reachable timeout h' this
| reachable_Session_call h this l s c :
    reachable timeout h this →
    h !! l = Some s →
    reachable timeout (<[l := Session_run s c]> h) this.

(** Wrapping the result of a call with a string as that of a call with an
    array of one string. *)
Definition as_array (o : completion outcomes) : completion outcomes :=
  match o with
  | Return (Outcome b) => Return (OutcomeArray [b])
  | other => other
  end.

(** A session with a connection and two subscriptions, as after an
    assignment of the field from outside the class. *)
Definition sample_session : Session :=
  set_subscriptions (Some ["news"; "chat"])
    (Session_setConnection (Some 7%nat) (Session_new "s0" 1000000)).

(** The sample store in a manager made with a timeout of zero, and a heap
    that holds the sample session alone. *)
Definition sample_manager_zero : SessionManager :=
  set_sessions (sessions sample_manager) (SessionManager_new (Some 0)).

Definition sample_heap_one : heap := {[ 5%nat := sample_session ]}.

(** A session is kept by a sweep at [now] when its field [_dateLastUsed] is
    less than [timeout] seconds back. *)
Definition used_within (h : heap) (now timeout : Z) (l : loc) : bool :=
  match h !! l with
  | Some s => bool_decide (now - _dateLastUsed s < timeout)
  | None => false
  end.

(** The sample store after [use()] has run on its first session at the
    second 4000: that session was created at 1000 and last used at 4000,
    the other was created and last used at 2000. *)
Definition sample_heap_used : heap :=
  <[0%nat := Session_use 4000000 (Session_new "s0" 1000000)]> sample_heap.

(** A rendering of the values of [json] that stands for [JSON.stringify]
    at the sample states; strings are written without escapes. *)
Fixpoint sample_stringify (v : json) : string :=
  let quote s := String (Ascii.ascii_of_nat 34) s in
  match v with
  | JNull => "null"
  | JBool b => if b then "true" else "false"
  | JNum n => pretty n
  | JStr s => quote (s +:+ quote "")
  | JArr items =>
      "[" +:+ (fix elements (l : list json) : string :=
                 match l with
                 | [] => ""
                 | [x] => sample_stringify x
                 | x :: rest => sample_stringify x +:+ "," +:+ elements rest
                 end) items +:+ "]"
  | JObj fields =>
      "{" +:+ (fix members (l : list (string * json)) : string :=
                 match l with
                 | [] => ""
                 | [(k, x)] => quote (k +:+ quote ":") +:+ sample_stringify x
                 | (k, x) :: rest =>
                     quote (k +:+ quote ":") +:+ sample_stringify x
                     +:+ "," +:+ members rest
                 end) fields +:+ "}"
  end.

(** * Properties *)

(** ** Arrays and promises *)

Lemma Array_includes_elem_of (subject : string) (arr : list string) :
  Array_includes subject arr = true ↔ subject ∈ arr.
Proof.
  induction arr as [|item rest IH]; simpl.
  - split; [discriminate | by intros ?%elem_of_nil].
  - destruct (decide (item = subject)) as [->|Hne].
    + split; [intros _; left | done].
    + rewrite IH. split; [by right | ].
      intros [Heq|Hin]%elem_of_cons; [congruence | done].
Qed.

Lemma Array_includes_not_elem_of (subject : string) (arr : list string) :
  Array_includes subject arr = false ↔ subject ∉ arr.
Proof.
  rewrite <- Array_includes_elem_of.
  destruct (Array_includes subject arr); naive_solver.
Qed.

Lemma Promise_all_Return {A} (values : list A) :
  Promise_all (Return <$> values) = Return values.
Proof.
  induction values as [|a values IH]; [done|].
  rewrite fmap_cons. cbn [Promise_all]. by rewrite IH.
Qed.

(** ** Session: the subscription field *)

(** A session whose field is an array: what [subscribe] returns and
    leaves. *)
Lemma Session_subscribe_array subject this subs :
  _subscriptions this = Some subs →
  ∃ this',
    Session_subscribe subject this
      = (Return (bool_decide (subject ∉ subs)), this') ∧
    subscribed subject this' ∧
    (∀ other, subscribed other this' ↔ other = subject ∨ other ∈ subs) ∧
    (NoDup subs → subscriptions_valid this').
Proof.
  intros Hsubs. unfold Session_subscribe. rewrite Hsubs.
  destruct (Array_includes subject subs) eqn:Hinc; simpl.
  - apply Array_includes_elem_of in Hinc.
    exists this. rewrite bool_decide_eq_false_2 by tauto.
    split; [done|]. split; [by exists subs|]. split.
    + intros other. split.
      * intros (subs' & Hs' & Hin). right. congruence.
      * intros [->|Hin]; by exists subs.
    + intros Hnd. by exists subs.
  - apply Array_includes_not_elem_of in Hinc.
    eexists. rewrite bool_decide_eq_true_2 by done.
    split; [done|]. split; [|split].
    + eexists. split; [done|]. set_solver.
    + intros other. split.
      * intros (subs' & Hs' & Hin). simpl in Hs'. simplify_eq. set_solver.
      * intros Hor. eexists. split; [done|]. set_solver.
    + intros Hnd. eexists. split; [done|].
      apply NoDup_app. split_and!; [done | set_solver | apply NoDup_singleton].
Qed.

(** The same for [unsubscribe]. *)
Lemma Session_unsubscribe_array subject this subs :
  _subscriptions this = Some subs →
  ∃ this',
    Session_unsubscribe subject this = (Return true, this') ∧
    ¬ subscribed subject this' ∧
    (∀ other, subscribed other this' ↔ other ≠ subject ∧ other ∈ subs) ∧
    (NoDup subs → subscriptions_valid this') ∧
    Session_unsubscribe subject this' = (Return true, this').
Proof.
  intros Hsubs. unfold Session_unsubscribe at 1. rewrite Hsubs.
  eexists. split; [done|].
  assert (Hmem : ∀ other,
    subscribed other
      (set_subscriptions (Some (filter (λ item, item ≠ subject) subs)) this)
    ↔ other ≠ subject ∧ other ∈ subs).
  { intros other. split.
    - intros (subs' & Hs' & Hin). simpl in Hs'. simplify_eq.
      by apply list_elem_of_filter in Hin.
    - intros Hin. eexists. split; [done|]. by apply list_elem_of_filter. }
  split_and!.
  - intros Hin%Hmem. naive_solver.
  - done.
  - intros Hnd. eexists. split; [done|]. by apply NoDup_filter.
  - unfold Session_unsubscribe, set_subscriptions. simpl.
    by rewrite list_filter_filter_l.
Qed.

(** The other mutators leave the field alone. *)
Lemma Session_use_subscriptions now_ms this :
  _subscriptions (Session_use now_ms this) = _subscriptions this.
Proof. done. Qed.

Lemma Session_setConnection_subscriptions c this :
  _subscriptions (Session_setConnection c this) = _subscriptions this.
Proof. done. Qed.

Lemma Session_setUser_subscriptions u this :
  _subscriptions (Session_setUser u this) = _subscriptions this.
Proof. done. Qed.

(** No method of [Session] turns a [null] field into an array. *)
Lemma Session_subscribe_null subject this :
  _subscriptions this = None →
  Session_subscribe subject this = (Throw TypeError, this).
Proof. intros H. unfold Session_subscribe. by rewrite H. Qed.

Lemma Session_unsubscribe_null subject this :
  _subscriptions this = None →
  Session_unsubscribe subject this = (Throw TypeError, this).
Proof. intros H. unfold Session_unsubscribe. by rewrite H. Qed.

Lemma Session_run_null this calls :
  _subscriptions this = None →
  _subscriptions (foldl Session_run this calls) = None.
Proof.
  revert this. induction calls as [|c calls IH]; intros this Hnull; [done|].
  simpl. apply IH. destruct c; simpl; try done.
  - by rewrite Session_subscribe_null.
  - by rewrite Session_unsubscribe_null.
Qed.

Lemma Session_run_valid this calls :
  subscriptions_valid this →
  subscriptions_valid (foldl Session_run this calls).
Proof.
  revert this. induction calls as [|c calls IH]; intros this Hv; [done|].
  simpl. apply IH. destruct Hv as (subs & Hs & Hnd).
  destruct c; simpl; try by exists subs.
  - destruct (Session_subscribe_array subject this subs Hs)
      as (this' & -> & _ & _ & Hv'). by apply Hv'.
  - destruct (Session_unsubscribe_array subject this subs Hs)
      as (this' & -> & _ & _ & Hv' & _). by apply Hv'.
Qed.

(** C1.  The constructor leaves [null] in the subscription field, not an
    empty array, and no sequence of calls on the session ever replaces it:
    the field is not a set of topics at construction nor later. *)
Theorem Session_new_subscriptions_null (uuid : string) (now_ms : Z)
    (calls : list Session_call) :
  Session_getSubscriptions (Session_new uuid now_ms) = None ∧
  ¬ subscriptions_valid (Session_new uuid now_ms) ∧
  Session_getSubscriptions (foldl Session_run (Session_new uuid now_ms) calls)
    = None.
Proof.
  split_and!.
  - done.
  - by intros (subs & Hs & _).
  - unfold Session_getSubscriptions. by apply Session_run_null.
Qed.

(** C2.  On a session as the constructor leaves it, [subscribe(t)] does not
    return [true]: the promise is rejected with a [TypeError], the topic is
    not recorded, and a second call ends the same way. *)
Theorem Session_subscribe_fresh_throws (uuid : string) (now_ms : Z) (t : string) :
  let fresh_session := Session_new uuid now_ms in
  Session_subscribe t fresh_session = (Throw TypeError, fresh_session) ∧
  ¬ subscribed t (Session_subscribe t fresh_session).2 ∧
  Session_subscribe t (Session_subscribe t fresh_session).2
    = (Throw TypeError, fresh_session).
Proof.
  simpl. split_and!; [done | | done].
  by intros (subs & Hs & _).
Qed.

(** C3.  On a session as the constructor leaves it, [unsubscribe(t)] does
    not return [true]: the promise is rejected with a [TypeError]. *)
Theorem Session_unsubscribe_fresh_throws (uuid : string) (now_ms : Z) (t : string) :
  let fresh_session := Session_new uuid now_ms in
  Session_unsubscribe t fresh_session = (Throw TypeError, fresh_session) ∧
  Session_unsubscribe t (Session_unsubscribe t fresh_session).2
    = (Throw TypeError, fresh_session).
Proof. done. Qed.

(** ** Session: push *)

Section PushProperties.

Variable JSON_stringify : json → string.

Lemma delivered_send c c' text w :
  delivered c' (Connection_send c text w)
    = delivered c' w ++ (if decide (c = c') then [text] else []).
Proof.
  unfold delivered, Connection_send.
  rewrite filter_app, fmap_app. f_equal.
  rewrite filter_cons, filter_nil. simpl.
  repeat case_decide; simplify_eq; done.
Qed.

(** C5.  [push(topic, m)] never throws.  Without a connection it returns
    [false] and nothing is sent; with a connection it returns [true] and
    [send] is called once on that connection, with the serialization of
    [{pushMessage: true, subject: topic, message: m}], and on no other
    connection. *)
Theorem Session_push_delivers_once (topic : string) (m : json)
    (this : Session) (w : wire) :
  let text := JSON_stringify (JObj [("pushMessage", JBool true);
                                    ("subject", JStr topic);
                                    ("message", m)]) in
  match Session_getConnection this with
  | None => Session_push JSON_stringify topic m this w = (Return false, w)
  | Some c =>
      ∃ w', Session_push JSON_stringify topic m this w = (Return true, w') ∧
            w' = w ++ [(c, text)] ∧
            delivered c w' = delivered c w ++ [text] ∧
            ∀ c', c' ≠ c → delivered c' w' = delivered c' w
  end.
Proof.
  intros text. unfold Session_getConnection, Session_push.
  destruct (_connection this) as [c|]; [|done].
  eexists. split; [done|]. split; [done|]. split.
  - rewrite delivered_send. by rewrite decide_True.
  - intros c' Hne. rewrite delivered_send.
    rewrite decide_False by done. by rewrite app_nil_r.
Qed.

(** A session whose subscription field is an array: [pushIfSubscribed]
    sends nothing and returns [false] for a topic that is not in it, and
    is [push] for a topic that is. *)
Lemma Session_pushIfSubscribed_array topic m this subs w :
  _subscriptions this = Some subs →
  (topic ∉ subs →
     Session_pushIfSubscribed JSON_stringify topic m this w
       = (Return false, w)) ∧
  (topic ∈ subs →
     Session_pushIfSubscribed JSON_stringify topic m this w
       = Session_push JSON_stringify topic m this w).
Proof.
  intros Hs. unfold Session_pushIfSubscribed. rewrite Hs. split.
  - intros Hnin%Array_includes_not_elem_of. by rewrite Hnin.
  - intros Hin%Array_includes_elem_of. by rewrite Hin.
Qed.

(** C6.  On a session as the constructor leaves it, to which a connection
    has been attached, [pushIfSubscribed(topic, m)] does not return
    [false]: the promise is rejected with a [TypeError].  Nothing is
    sent. *)
Theorem Session_pushIfSubscribed_fresh_throws (uuid : string) (now_ms : Z)
    (c : connection) (topic : string) (m : json) (w : wire) :
  let this := Session_setConnection (Some c) (Session_new uuid now_ms) in
  ¬ subscribed topic this ∧
  Session_getConnection this = Some c ∧
  Session_pushIfSubscribed JSON_stringify topic m this w
    = (Throw TypeError, w).
Proof.
  simpl. split_and!; [|done|done].
  by intros (subs & Hs & _).
Qed.

End PushProperties.

(** ** SessionManager: the store *)

Lemma set_sessions_same (this : SessionManager) :
  set_sessions (sessions this) this = this.
Proof. by destruct this. Qed.

Lemma id_absent_intro h id ss :
  Forall (λ l, is_Some (h !! l)) ss →
  (∀ l s, l ∈ ss → h !! l = Some s → Session_getIdentifier s ≠ id) →
  id_absent h id ss.
Proof.
  intros Hwf Hne. apply Forall_forall. intros l Hin.
  destruct (proj1 (Forall_forall _ _) Hwf l Hin) as [s Hs].
  exists s. split; [done | by eapply Hne].
Qed.

(** The first session with a given identifier splits the array. *)
Lemma first_with_id h id ss l s :
  Forall (λ l, is_Some (h !! l)) ss →
  ids_distinct h ss →
  l ∈ ss → h !! l = Some s → Session_getIdentifier s = id →
  ∃ pre post, ss = pre ++ l :: post ∧
              id_absent h id pre ∧ id_absent h id post.
Proof.
  intros Hwf Hdist Hin Hs Hid.
  apply list_elem_of_lookup in Hin as [i Hi].
  exists (take i ss), (drop (S i) ss).
  split; [by rewrite take_drop_middle|].
  split; apply Forall_forall; intros l' Hin'.
  - apply list_elem_of_lookup in Hin' as [j Hj].
    pose proof (lookup_lt_Some _ _ _ Hj) as Hlen. rewrite length_take in Hlen.
    rewrite lookup_take_lt in Hj by lia.
    assert (Hl' : l' ∈ ss) by (apply list_elem_of_lookup; eauto).
    destruct (proj1 (Forall_forall _ _) Hwf l' Hl') as [s' Hs'].
    exists s'. split; [done|]. intros Heq.
    assert (j = i) by (eapply Hdist; eauto; congruence). lia.
  - apply list_elem_of_lookup in Hin' as [j Hj].
    rewrite lookup_drop in Hj.
    assert (Hl' : l' ∈ ss) by (apply list_elem_of_lookup; eauto).
    destruct (proj1 (Forall_forall _ _) Hwf l' Hl') as [s' Hs'].
    exists s'. split; [done|]. intros Heq.
    assert ((S i + j)%nat = i) by (eapply Hdist; eauto; congruence). lia.
Qed.

Lemma _destroySession_loop_absent h id arr i rest :
  id_absent h id rest →
  _destroySession_loop h id arr i rest = Some (false, arr).
Proof.
  revert i. induction rest as [|l rest IH]; intros i Habs; [done|].
  apply Forall_cons in Habs as [(s & Hs & Hne) Habs].
  simpl. rewrite Hs. simpl. rewrite decide_False by done. by apply IH.
Qed.

Lemma _destroySession_loop_found h id arr i pre l s post :
  id_absent h id pre →
  h !! l = Some s → Session_getIdentifier s = id →
  _destroySession_loop h id arr i (pre ++ l :: post)
    = Some (true, delete (i + length pre)%nat arr).
Proof.
  intros Habs Hs Hid. revert i.
  induction pre as [|l' pre IH]; intros i; simpl.
  - rewrite Hs. simpl. rewrite decide_True by done.
    by rewrite Nat.add_0_r.
  - apply Forall_cons in Habs as [(s' & Hs' & Hne) Habs].
    rewrite Hs'. simpl. rewrite decide_False by done.
    rewrite IH by done. do 3 f_equal. lia.
Qed.

Lemma getSession_loop_absent h id rest :
  id_absent h id rest → getSession_loop h id rest = Some None.
Proof.
  induction rest as [|l rest IH]; intros Habs; [done|].
  apply Forall_cons in Habs as [(s & Hs & Hne) Habs].
  simpl. rewrite Hs. simpl. rewrite decide_False by done. by apply IH.
Qed.

Lemma getSession_loop_found h id pre l s post :
  id_absent h id pre →
  h !! l = Some s → Session_getIdentifier s = id →
  getSession_loop h id (pre ++ l :: post) = Some (Some l).
Proof.
  intros Habs Hs Hid.
  induction pre as [|l' pre IH]; simpl.
  - rewrite Hs. simpl. by rewrite decide_True.
  - apply Forall_cons in Habs as [(s' & Hs' & Hne) Habs].
    rewrite Hs'. simpl. rewrite decide_False by done. by apply IH.
Qed.

Lemma delete_middle {A} (pre post : list A) (x : A) :
  delete (length pre) (pre ++ x :: post) = pre ++ post.
Proof. induction pre as [|y pre IH]; simpl; [done | by rewrite IH]. Qed.

(** C8.  In a store whose identifiers are distinct, [destroySession] with
    an identifier that no session carries throws "Session not found" and
    leaves the manager as it was; with the identifier of a session of the
    store it returns [true] and removes that session and no other, after
    which [getSession] with that identifier returns [null]. *)
Theorem destroySession_by_id (session : option loc) (id : string)
    (h : heap) (this : SessionManager) :
  store_wf h this →
  ids_distinct h (sessions this) →
  ((∀ l s, l ∈ sessions this → h !! l = Some s →
           Session_getIdentifier s ≠ id) →
   destroySession session id h this
     = Some (Throw (ThrowString "Session not found"), this)) ∧
  (∀ l s, l ∈ sessions this → h !! l = Some s →
          Session_getIdentifier s = id →
   ∃ this' pre post,
     destroySession session id h this = Some (Return true, this') ∧
     sessions this = pre ++ l :: post ∧
     this' = set_sessions (pre ++ post) this ∧
     getSession id h this = Some (Some l) ∧
     getSession id h this' = Some None).
Proof.
  intros Hwf Hdist. split.
  - intros Hne. unfold destroySession, _destroySession.
    rewrite _destroySession_loop_absent by by apply id_absent_intro.
    simpl. by rewrite set_sessions_same.
  - intros l s Hin Hs Hid.
    destruct (first_with_id h id _ l s Hwf Hdist Hin Hs Hid)
      as (pre & post & Hsplit & Hpre & Hpost).
    exists (set_sessions (pre ++ post) this), pre, post.
    unfold destroySession, _destroySession, getSession.
    rewrite Hsplit at 2.
    rewrite (_destroySession_loop_found h id _ 0 pre l s post) by done.
    simpl. rewrite Hsplit, delete_middle. split_and!; try done.
    + by eapply getSession_loop_found.
    + apply getSession_loop_absent. by apply Forall_app.
Qed.

(** ** SessionManager: the sweep *)

Lemma _gc_loop_filter h now timeout rest sessionsToKeep :
  Forall (λ l, is_Some (h !! l)) rest →
  _gc_loop h now timeout rest sessionsToKeep
    = Some (sessionsToKeep ++ filter (λ l, idle_below h now timeout l) rest).
Proof.
  revert sessionsToKeep.
  induction rest as [|l rest IH]; intros keep Hwf; simpl.
  - by rewrite filter_nil, app_nil_r.
  - apply Forall_cons in Hwf as [[s Hs] Hwf].
    rewrite Hs. simpl. rewrite IH by done. f_equal.
    assert (Hl : idle_below h now timeout l
                 = bool_decide (now - Session_getUsedAt s < timeout))
      by (unfold idle_below; by rewrite Hs).
    rewrite filter_cons, Hl.
    destruct (bool_decide (now - Session_getUsedAt s < timeout)).
    + rewrite decide_True by done. by rewrite <- app_assoc.
    + rewrite decide_False by (intros []). done.
Qed.

(** Without a timeout the sweep does nothing and is not rescheduled. *)
Lemma _gc_disabled now_ms h this :
  _opts_timeout this = None → _gc now_ms h this = Some this.
Proof. intros H. unfold _gc. by rewrite H. Qed.

(** C7.  With timeout [T], one pass of [_gc] at time [now] keeps, in their
    order, the sessions of the store whose field [_dateLastUsed] satisfies
    [now - _dateLastUsed < T] and no other, whatever their creation time.
    So a session last used at [t0] is kept by a pass at [t0 + T - 1] and
    removed by a pass at [t0 + T + 1]; and a session on which [use()] ran
    at [used_ms] is kept exactly when the pass is less than [T] seconds
    after that. *)
Theorem _gc_retains_exactly (T now_ms : Z) (h : heap) (this : SessionManager) :
  store_wf h this →
  _opts_timeout this = Some T →
  let now := now_ms `div` 1000 in
  ∃ this',
    _gc now_ms h this = Some this' ∧
    sessions this' = filter (λ l, used_within h now T l) (sessions this) ∧
    (∀ l s, h !! l = Some s →
       (l ∈ sessions this' ↔
        l ∈ sessions this ∧ now - _dateLastUsed s < T)) ∧
    (∀ l s t0, l ∈ sessions this → h !! l = Some s →
       _dateLastUsed s = t0 →
       (now = t0 + T - 1 → l ∈ sessions this') ∧
       (now = t0 + T + 1 → l ∉ sessions this')) ∧
    (∀ l s0 used_ms, l ∈ sessions this →
       h !! l = Some (Session_use used_ms s0) →
       (l ∈ sessions this' ↔ now - used_ms `div` 1000 < T)).
Proof.
  intros Hwf HT now. unfold _gc. rewrite HT. fold now.
  rewrite _gc_loop_filter by done. simpl.
  eexists. split; [done|]. simpl.
  assert (Hfield : filter (λ l, idle_below h now T l) (sessions this)
                   = filter (λ l, used_within h now T l) (sessions this)).
  { apply list_filter_iff. intros l. unfold idle_below, used_within.
    by destruct (h !! l). }
  rewrite Hfield.
  assert (Hmem : ∀ l s, h !! l = Some s →
    (l ∈ filter (λ l, used_within h now T l) (sessions this) ↔
     l ∈ sessions this ∧ now - _dateLastUsed s < T)).
  { intros l s Hs. rewrite list_elem_of_filter.
    unfold used_within. rewrite Hs.
    rewrite bool_decide_spec. tauto. }
  split_and!; [done | done | |].
  - intros l s t0 Hin Hs Ht0. split; intros Hnow.
    + apply (Hmem l s Hs). split; [done | lia].
    + intros Hkept%(Hmem l s Hs). lia.
  - intros l s0 used_ms Hin Hs. rewrite (Hmem l _ Hs). simpl. tauto.
Qed.

(** ** SessionManager: the RPC methods *)

Lemma destroyCurrentSession_loop_absent session arr i rest :
  (∀ l, l ∈ rest → Some l ≠ session) →
  destroyCurrentSession_loop session arr i rest
    = (Throw (ThrowString "Session not found."), arr).
Proof.
  revert i. induction rest as [|l rest IH]; intros i Hne; [done|].
  simpl. rewrite decide_False by (apply Hne; left).
  apply IH. intros l' Hin. apply Hne. by right.
Qed.

(** A session that is no longer in the store. *)
Lemma destroyCurrentSession_absent (l : loc) (this : SessionManager) :
  l ∉ sessions this →
  destroyCurrentSession (Some l) this
    = (Throw (ThrowString "Session not found."), this).
Proof.
  intros Hnin. unfold destroyCurrentSession.
  rewrite destroyCurrentSession_loop_absent.
  - by rewrite set_sessions_same.
  - intros l' Hin [= ->]. done.
Qed.

(** What the methods that test [session === null] throw there. *)
Lemma state_null (h : heap) :
  state None h = Some (Throw (ThrowString "no active session")).
Proof. done. Qed.

(** C10.  [destroyCurrentSession] with [session = null]: no entry of the
    store is [null], the scan finds nothing, the method throws
    'Session not found.' and not the "no active session" of the methods
    that test for [null], and the manager is as it was. *)
Theorem destroyCurrentSession_null (this : SessionManager) (h : heap) :
  destroyCurrentSession None this
    = (Throw (ThrowString "Session not found."), this) ∧
  Some (thrown (destroyCurrentSession None this).1) ≠ thrown <$> state None h.
Proof.
  assert (H : destroyCurrentSession None this
                = (Throw (ThrowString "Session not found."), this)).
  { unfold destroyCurrentSession.
    rewrite destroyCurrentSession_loop_absent by done.
    by rewrite set_sessions_same. }
  split; [done|]. rewrite H. simpl. intros [=].
Qed.

(** [state] reads the user of the session. *)
Lemma state_returns_permissions (l : loc) (s : Session) (h : heap) :
  h !! l = Some s →
  ∃ r, state (Some l) h = Some (Return r) ∧
       state_permissions r = match Session_getUser s with
                             | Some u => user_getPermissions u
                             | None => []
                             end.
Proof. intros Hs. unfold state. rewrite Hs. simpl. eauto. Qed.

Lemma listPermissionsForCurrentSession_null global_user :
  listPermissionsForCurrentSession global_user None
    = Throw (ThrowString "no active session").
Proof. done. Qed.

(** C4.  With a session attached, [listPermissionsForCurrentSession] does
    not return the permissions of the session: the identifier [user] is
    bound nowhere and evaluating it throws a [ReferenceError], whereas
    [state], on the same session, returns the permissions. *)
Theorem listPermissionsForCurrentSession_throws
    (l : loc) (s : Session) (u : User) (h : heap) :
  let h' := <[l := Session_setUser (Some u) s]> h in
  listPermissionsForCurrentSession None (Some l)
    = Throw (ReferenceError "user") ∧
  ∃ r, state (Some l) h' = Some (Return r) ∧
       state_permissions r = user_getPermissions u.
Proof.
  intros h'. split; [done|].
  destruct (state_returns_permissions l (Session_setUser (Some u) s) h')
    as (r & Hr & Hp); [apply lookup_insert_eq|].
  exists r. split; [done|]. by rewrite Hp.
Qed.

(** The loop of the array branch of [subscribe], on a session whose
    subscription field is an array: every promise is fulfilled, the one of
    index [i] with [true] when its topic is neither subscribed before the
    call nor among the topics of smaller index. *)
Lemma promises_loop_subscribe (ts : list string) :
  ∀ (this : Session) (subs : list string) (promises : list (completion bool)),
    _subscriptions this = Some subs →
    ∃ (bs : list bool) (this' : Session),
      promises_loop Session_subscribe ts this promises
        = (promises ++ (Return <$> bs), this') ∧
      length bs = length ts ∧
      (∀ i t, ts !! i = Some t →
         bs !! i = Some (bool_decide ((t ∉ subs) ∧ (t ∉ take i ts)))) ∧
      (∀ x, subscribed x this' ↔ x ∈ subs ∨ x ∈ ts).
Proof.
  induction ts as [|t ts IH]; intros this subs promises Hs.
  - exists [], this. simpl. rewrite app_nil_r. split_and!; try done.
    intros x. split.
    + intros (subs' & Hs' & Hin). left. congruence.
    + intros [Hin|Hin%elem_of_nil]; [by exists subs | done].
  - destruct (Session_subscribe_array t this subs Hs)
      as (this1 & Hcall & (subs1 & Hs1 & _) & Hmem1 & _).
    destruct (IH this1 subs1 (promises ++ [Return (bool_decide (t ∉ subs))]) Hs1)
      as (bs & this' & Hloop & Hlen & Hbs & Hmem).
    assert (Hsubs1 : ∀ x, x ∈ subs1 ↔ x = t ∨ x ∈ subs).
    { intros x. rewrite <- Hmem1. split.
      - intros Hin. by exists subs1.
      - intros (subs' & Hs' & Hin). congruence. }
    exists (bool_decide (t ∉ subs) :: bs), this'.
    simpl. rewrite Hcall, Hloop, <- app_assoc. split_and!.
    + done.
    + by rewrite Hlen.
    + intros [|i] t' Hi; simpl in Hi.
      * simplify_eq. simpl. f_equal. apply bool_decide_ext.
        rewrite elem_of_nil. tauto.
      * simpl. rewrite (Hbs i t' Hi). f_equal. apply bool_decide_ext.
        rewrite Hsubs1, elem_of_cons. tauto.
    + intros x. rewrite Hmem, Hsubs1, elem_of_cons. tauto.
Qed.

(** What the array branch of [subscribe] does once the subscription field
    of the session is an array, a state that no method of the classes
    produces: the call returns one boolean for each topic, in the order of
    the topics, each the outcome of subscribing to that topic after those
    before it; on an empty array, ["a"; "b"; "a"] gives
    [true; true; false]. *)
Lemma subscribe_array_outcomes (l : loc) (s : Session) (subs : list string)
    (ts : list string) (h : heap) :
  h !! l = Some s →
  _subscriptions s = Some subs →
  ∃ (bs : list bool) (s' : Session),
    SessionManager_subscribe (Some l) (TopicArray ts) h
      = Some (Return (OutcomeArray bs), <[l := s']> h) ∧
    length bs = length ts ∧
    (∀ i t, ts !! i = Some t →
       bs !! i = Some (bool_decide ((t ∉ subs) ∧ (t ∉ take i ts)))) ∧
    (∀ x, subscribed x s' ↔ x ∈ subs ∨ x ∈ ts) ∧
    (subs = [] → ts = ["a"; "b"; "a"]%string → bs = [true; true; false]).
Proof.
  intros Hl Hs.
  destruct (promises_loop_subscribe ts s subs [] Hs)
    as (bs & s' & Hloop & Hlen & Hbs & Hmem).
  exists bs, s'.
  unfold SessionManager_subscribe, rpc_topics. rewrite Hl. simpl.
  rewrite Hloop. simpl. rewrite Promise_all_Return.
  split_and!; try done.
  intros -> ->.
  destruct bs as [|b0 [|b1 [|b2 [|]]]]; try done.
  pose proof (Hbs 0%nat "a"%string eq_refl) as H0.
  pose proof (Hbs 1%nat "b"%string eq_refl) as H1.
  pose proof (Hbs 2%nat "a"%string eq_refl) as H2.
  simpl in H0, H1, H2. simplify_eq.
  by vm_compute.
Qed.

(** On a session whose subscription field is [null] every promise of the
    loop is rejected, and so is the call. *)
Lemma promises_loop_subscribe_null (ts : list string) :
  ∀ (this : Session) (promises : list (completion bool)),
    _subscriptions this = None →
    promises_loop Session_subscribe ts this promises
      = (promises ++ replicate (length ts) (Throw TypeError), this).
Proof.
  induction ts as [|t ts IH]; intros this promises Hnull; simpl.
  - by rewrite app_nil_r.
  - rewrite Session_subscribe_null by done.
    rewrite IH by done. by rewrite <- app_assoc.
Qed.

Lemma subscribe_array_null (l : loc) (s : Session) (t : string)
    (ts : list string) (h : heap) :
  h !! l = Some s →
  _subscriptions s = None →
  SessionManager_subscribe (Some l) (TopicArray (t :: ts)) h
    = Some (Throw TypeError, <[l := s]> h).
Proof.
  intros Hl Hnull.
  unfold SessionManager_subscribe, rpc_topics. rewrite Hl. simpl.
  rewrite Session_subscribe_null by done.
  by rewrite promises_loop_subscribe_null.
Qed.

(** C9.  On a session as [createSession] makes it, [subscribe] with the
    array ["a"; "b"; "a"] does not return [true; true; false]: every call
    of the loop is rejected with a [TypeError], and so is the aggregate;
    the same holds for every array that is not empty.  Nothing is
    recorded. *)
Theorem subscribe_array_fresh_throws (session : option loc) (uuid : string)
    (now_ms : Z) (h : heap) (this : SessionManager) :
  let h' := (createSession session uuid now_ms h this).1.2 in
  let l := fresh (dom h) in
  h' !! l = Some (Session_new uuid now_ms) ∧
  l ∈ sessions (createSession session uuid now_ms h this).2 ∧
  SessionManager_subscribe (Some l) (TopicArray ["a"; "b"; "a"]%string) h'
    = Some (Throw TypeError, h') ∧
  (∀ t ts, SessionManager_subscribe (Some l) (TopicArray (t :: ts)) h'
             = Some (Throw TypeError, h')).
Proof.
  intros h' l.
  assert (Hl : h' !! l = Some (Session_new uuid now_ms))
    by apply lookup_insert_eq.
  assert (Hall : ∀ t ts,
    SessionManager_subscribe (Some l) (TopicArray (t :: ts)) h'
      = Some (Throw TypeError, h')).
  { intros t ts.
    rewrite (subscribe_array_null l (Session_new uuid now_ms) t ts h' Hl)
      by done.
    by rewrite insert_id. }
  split_and!; [done | | apply Hall | done].
  simpl. apply elem_of_app. right. left.
Qed.

(** ** The theorems at the sample states *)

Lemma sample_store_wf : store_wf sample_heap sample_manager.
Proof. repeat constructor; vm_compute; eauto. Qed.

Lemma sample_ids_distinct : ids_distinct sample_heap (sessions sample_manager).
Proof.
  intros i j l1 l2 s1 s2 Hi Hj H1 H2 Heq.
  destruct i as [|[|i]], j as [|[|j]];
    vm_compute in Hi, Hj; simplify_eq; try done;
    vm_compute in H1, H2; simplify_eq; done.
Qed.

Lemma destroySession_by_id_witness :
  store_wf sample_heap sample_manager ∧
  ids_distinct sample_heap (sessions sample_manager) ∧
  ∃ this',
    destroySession (Some 1%nat) "s0" sample_heap sample_manager
      = Some (Return true, this') ∧
    sessions this' = [1%nat] ∧
    getSession "s0" sample_heap this' = Some None.
Proof.
  split; [exact sample_store_wf|]. split; [exact sample_ids_distinct|].
  destruct (destroySession_by_id (Some 1%nat) "s0" sample_heap sample_manager
              sample_store_wf sample_ids_distinct) as [_ Hknown].
  destruct (Hknown 0%nat (Session_new "s0" 1000000))
    as (this' & pre & post & Hcall & _ & _ & _ & Hget);
    [vm_compute; left | reflexivity | reflexivity |].
  exists this'. split; [exact Hcall|]. split; [|exact Hget].
  vm_compute in Hcall. injection Hcall as <-. reflexivity.
Defined.

Lemma _gc_retains_exactly_witness :
  store_wf sample_heap_used sample_manager ∧
  _opts_timeout sample_manager = Some 3600 ∧
  sample_heap_used !! 0%nat
    = Some (Session_use 4000000 (Session_new "s0" 1000000)) ∧
  ∃ this',
    _gc 5601000 sample_heap_used sample_manager = Some this' ∧
    sessions this' = [0%nat] ∧
    (0%nat ∈ sessions this' ↔ 5601000 `div` 1000 - 4000000 `div` 1000 < 3600).
Proof.
  assert (Hwf : store_wf sample_heap_used sample_manager)
    by (repeat constructor; vm_compute; eauto).
  split; [exact Hwf|]. split; [reflexivity|]. split; [reflexivity|].
  destruct (_gc_retains_exactly 3600 5601000 sample_heap_used sample_manager
              Hwf eq_refl) as (this' & Hcall & Hkept & _ & _ & Hused).
  exists this'. split; [exact Hcall|]. split.
  - rewrite Hkept. reflexivity.
  - apply (Hused 0%nat (Session_new "s0" 1000000) 4000000); [|reflexivity].
    apply (bool_decide_unpack _); vm_compute; exact I.
Defined.

Lemma subscribe_array_outcomes_witness :
  sample_heap_array !! 0%nat
    = Some (set_subscriptions (Some []) (Session_new "s0" 1000000)) ∧
  ∃ h',
    SessionManager_subscribe (Some 0%nat) (TopicArray ["a"; "b"; "a"]%string)
      sample_heap_array
    = Some (Return (OutcomeArray [true; true; false]), h').
Proof.
  split; [reflexivity|].
  destruct (subscribe_array_outcomes 0%nat
              (set_subscriptions (Some []) (Session_new "s0" 1000000))
              [] ["a"; "b"; "a"]%string sample_heap_array eq_refl eq_refl)
    as (bs & s' & Hcall & _ & _ & _ & Hsample).
  rewrite (Hsample eq_refl eq_refl) in Hcall.
  eexists. exact Hcall.
Defined.

(** * Further properties *)

(** ** Session: calls in sequence *)

Lemma filter_all {A} (P : A → Prop) `{!∀ x, Decision (P x)} (l : list A) :
  (∀ x, x ∈ l → P x) → filter P l = l.
Proof.
  induction l as [|a l IH]; intros HP; [done|].
  rewrite filter_cons_True by (apply HP; left).
  f_equal. apply IH. intros x Hx. apply HP. by right.
Qed.

Lemma set_subscriptions_same (this : Session) (subs : option (list string)) :
  _subscriptions this = subs → set_subscriptions subs this = this.
Proof. intros <-. by destruct this. Qed.

Lemma Array_includes_ext (t : string) (l l' : list string) :
  (t ∈ l ↔ t ∈ l') → Array_includes t l = Array_includes t l'.
Proof.
  intros Hiff.
  destruct (Array_includes t l) eqn:H; symmetry.
  - apply Array_includes_elem_of, Hiff. by apply Array_includes_elem_of.
  - apply Array_includes_not_elem_of. rewrite <- Hiff.
    by apply Array_includes_not_elem_of.
Qed.

Lemma Session_subscribe_fields (t : string) (this : Session) :
  let this' := (Session_subscribe t this).2 in
  _id this' = _id this ∧ _dateCreated this' = _dateCreated this ∧
  _dateLastUsed this' = _dateLastUsed this ∧ _user this' = _user this ∧
  _connection this' = _connection this.
Proof.
  unfold Session_subscribe.
  destruct (_subscriptions this) as [subs|]; [|done].
  by destruct (Array_includes t subs).
Qed.

Lemma Session_unsubscribe_fields (t : string) (this : Session) :
  let this' := (Session_unsubscribe t this).2 in
  _id this' = _id this ∧ _dateCreated this' = _dateCreated this ∧
  _dateLastUsed this' = _dateLastUsed this ∧ _user this' = _user this ∧
  _connection this' = _connection this.
Proof.
  unfold Session_unsubscribe. by destruct (_subscriptions this).
Qed.

(** X1.  On a session whose subscription field is an array without the
    topic, [subscribe(t)] followed by [unsubscribe(t)] both return [true]
    and leave the session exactly as it was, the order of the other
    subscriptions included. *)
Theorem Session_subscribe_then_unsubscribe (t : string) (this : Session)
    (subs : list string) :
  _subscriptions this = Some subs →
  t ∉ subs →
  ∃ this1,
    Session_subscribe t this = (Return true, this1) ∧
    subscribed t this1 ∧
    Session_unsubscribe t this1 = (Return true, this).
Proof.
  intros Hs Hnin. unfold Session_subscribe. rewrite Hs.
  rewrite (proj2 (Array_includes_not_elem_of t subs) Hnin). simpl.
  eexists. split; [done|]. split.
  - eexists. split; [done|]. set_solver.
  - unfold Session_unsubscribe. simpl. f_equal.
    rewrite filter_app, filter_all by set_solver.
    rewrite filter_cons_False, filter_nil, app_nil_r by naive_solver.
    unfold set_subscriptions. simpl. rewrite <- Hs. by destruct this.
Qed.

Lemma Session_subscribe_then_unsubscribe_witness :
  _subscriptions sample_session = Some ["news"; "chat"]%string ∧
  ("alerts"%string ∉ ["news"; "chat"]%string) ∧
  Session_unsubscribe "alerts" (Session_subscribe "alerts" sample_session).2
    = (Return true, sample_session).
Proof.
  assert (Hnin : "alerts"%string ∉ ["news"; "chat"]%string)
    by (apply (bool_decide_unpack _); vm_compute; exact I).
  split; [reflexivity|]. split; [exact Hnin|].
  destruct (Session_subscribe_then_unsubscribe "alerts" sample_session
              ["news"; "chat"]%string eq_refl Hnin) as (this1 & H1 & _ & H2).
  rewrite H1. exact H2.
Defined.

(** X2.  Whatever calls are made on a session, its identifier and its
    creation time stay those the constructor gave it; and when no [use()]
    runs at a clock value before that of the construction, the time of last
    use is never before the creation time. *)
Theorem Session_run_keeps_identity (uuid : string) (now_ms : Z)
    (calls : list Session_call) :
  let this := foldl Session_run (Session_new uuid now_ms) calls in
  Session_getIdentifier this = uuid ∧
  Session_getCreatedAt this = now_ms `div` 1000 ∧
  (Forall (λ c, ∀ t, c = call_use t → now_ms ≤ t) calls →
   Session_getCreatedAt this ≤ Session_getUsedAt this).
Proof.
  simpl.
  assert (Hgen : ∀ s,
    _id (foldl Session_run s calls) = _id s ∧
    _dateCreated (foldl Session_run s calls) = _dateCreated s ∧
    (_dateCreated s ≤ _dateLastUsed s →
     Forall (λ c, ∀ t, c = call_use t → _dateCreated s ≤ t `div` 1000) calls →
     _dateCreated s ≤ _dateLastUsed (foldl Session_run s calls))).
  { induction calls as [|c calls IH]; intros s; [by simpl|].
    simpl. destruct (IH (Session_run s c)) as (Hid & Hcr & Hused).
    assert (Hstep : _id (Session_run s c) = _id s ∧
                    _dateCreated (Session_run s c) = _dateCreated s).
    { destruct c; simpl; try done.
      - destruct (Session_subscribe_fields subject s) as (? & ? & _). done.
      - destruct (Session_unsubscribe_fields subject s) as (? & ? & _). done. }
    destruct Hstep as [Hid1 Hcr1].
    rewrite Hid, Hcr, Hid1, Hcr1. split_and!; [done | done |].
    intros Hle Hall. apply Forall_cons in Hall as [Hc Hall].
    rewrite Hcr1 in Hused. apply Hused; [|done].
    destruct c; simpl; try done.
    + by apply Hc.
    + destruct (Session_subscribe_fields subject s) as (_ & _ & -> & _). done.
    + destruct (Session_unsubscribe_fields subject s) as (_ & _ & -> & _). done. }
  destruct (Hgen (Session_new uuid now_ms)) as (Hid & Hcr & Hused).
  unfold Session_getIdentifier, Session_getCreatedAt, Session_getUsedAt.
  split_and!; [done | done |].
  intros Hall. rewrite Hcr. simpl in Hused. apply Hused; [done|].
  eapply Forall_impl; [exact Hall|].
  intros c Hc t ->. apply Z.div_le_mono; [lia | by apply Hc].
Qed.

Lemma Session_run_keeps_identity_witness :
  Forall (λ c, ∀ t, c = call_use t → 1000000 ≤ t)
    [call_subscribe "a"; call_use 1500999; call_setConnection (Some 7%nat)] ∧
  Session_getCreatedAt
    (foldl Session_run (Session_new "s0" 1000000)
       [call_subscribe "a"; call_use 1500999; call_setConnection (Some 7%nat)])
  ≤ Session_getUsedAt
    (foldl Session_run (Session_new "s0" 1000000)
       [call_subscribe "a"; call_use 1500999; call_setConnection (Some 7%nat)]).
Proof.
  assert (Hall : Forall (λ c, ∀ t, c = call_use t → 1000000 ≤ t)
    [call_subscribe "a"; call_use 1500999; call_setConnection (Some 7%nat)]).
  { repeat constructor; intros t [=]. lia. }
  split; [exact Hall|].
  exact (proj2 (proj2 (Session_run_keeps_identity "s0" 1000000 _)) Hall).
Defined.

(** ** Session: subscriptions and delivery *)

Section Delivery.

Variable JSON_stringify : json → string.

(** X3.  On a session with a connection whose subscription field is an
    array: after [subscribe(t)], [pushIfSubscribed(t, m)] returns [true]
    and sends the envelope once; after [unsubscribe(t)] it returns [false]
    and sends nothing; and neither call changes what [pushIfSubscribed]
    does for another topic. *)
Theorem pushIfSubscribed_follows_subscription (t : string) (m : json)
    (this : Session) (subs : list string) (c : connection) (w : wire) :
  _subscriptions this = Some subs →
  _connection this = Some c →
  Session_pushIfSubscribed JSON_stringify t m (Session_subscribe t this).2 w
    = (Return true, w ++ [(c, JSON_stringify (push_envelope t m))]) ∧
  Session_pushIfSubscribed JSON_stringify t m (Session_unsubscribe t this).2 w
    = (Return false, w) ∧
  (∀ t', t' ≠ t →
     Session_pushIfSubscribed JSON_stringify t' m (Session_subscribe t this).2 w
       = Session_pushIfSubscribed JSON_stringify t' m this w ∧
     Session_pushIfSubscribed JSON_stringify t' m (Session_unsubscribe t this).2 w
       = Session_pushIfSubscribed JSON_stringify t' m this w).
Proof.
  intros Hs Hc.
  destruct (Session_subscribe_array t this subs Hs)
    as (s1 & Hsub & (subs1 & Hs1 & Hin1) & Hmem1 & _).
  destruct (Session_unsubscribe_array t this subs Hs)
    as (s2 & Hunsub & Hnot2 & Hmem2 & _).
  destruct (Session_subscribe_fields t this) as (_ & _ & _ & _ & Hc1).
  destruct (Session_unsubscribe_fields t this) as (_ & _ & _ & _ & Hc2).
  rewrite Hsub, Hunsub in *. simpl in *.
  assert (∃ subs2, _subscriptions s2 = Some subs2) as [subs2 Hs2].
  { revert Hunsub. unfold Session_unsubscribe. rewrite Hs. intros [= <-]. eauto. }
  assert (Hin_1 : ∀ x, x ∈ subs1 ↔ x = t ∨ x ∈ subs).
  { intros x. rewrite <- Hmem1. split.
    - intros ?. by exists subs1.
    - intros (? & ? & ?). congruence. }
  assert (Hin_2 : ∀ x, x ∈ subs2 ↔ x ≠ t ∧ x ∈ subs).
  { intros x. rewrite <- Hmem2. split.
    - intros ?. by exists subs2.
    - intros (? & ? & ?). congruence. }
  unfold Session_pushIfSubscribed, Session_push.
  rewrite Hs, Hs1, Hs2, Hc1, Hc2, Hc. split_and!.
  - by rewrite (proj2 (Array_includes_elem_of t subs1) Hin1).
  - rewrite (proj2 (Array_includes_not_elem_of t subs2)); [done|].
    rewrite Hin_2. tauto.
  - intros t' Hne. split.
    + rewrite (Array_includes_ext t' subs1 subs); [done|].
      rewrite Hin_1. tauto.
    + rewrite (Array_includes_ext t' subs2 subs); [done|].
      rewrite Hin_2. tauto.
Qed.

End Delivery.

Lemma pushIfSubscribed_follows_subscription_witness :
  _subscriptions sample_session = Some ["news"; "chat"]%string ∧
  _connection sample_session = Some 7%nat ∧
  Session_pushIfSubscribed sample_stringify "chat" JNull
    (Session_unsubscribe "chat" sample_session).2 []
    = (Return false, []).
Proof.
  split; [reflexivity|]. split; [reflexivity|].
  exact (proj1 (proj2 (pushIfSubscribed_follows_subscription sample_stringify
                         "chat" JNull sample_session ["news"; "chat"]%string
                         7%nat [] eq_refl eq_refl))).
Defined.

(** ** SessionManager: the invariants of the store *)

Lemma set_sessions_sessions ss this : sessions (set_sessions ss this) = ss.
Proof. done. Qed.

Lemma store_ids_lookup h ss i :
  store_ids h ss !! i = (λ l, Session_getIdentifier <$> h !! l) <$> ss !! i.
Proof. unfold store_ids. by rewrite list_lookup_fmap. Qed.

Lemma ids_distinct_NoDup h ss :
  Forall (λ l, is_Some (h !! l)) ss →
  ids_distinct h ss ↔ NoDup (store_ids h ss).
Proof.
  intros Hwf. rewrite NoDup_alt. split.
  - intros Hd i j x Hi Hj. rewrite store_ids_lookup in Hi, Hj.
    destruct (ss !! i) as [l1|] eqn:H1; [|done].
    destruct (ss !! j) as [l2|] eqn:H2; [|done].
    destruct (proj1 (Forall_forall _ _) Hwf l1) as [s1 Hs1];
      [by eapply list_elem_of_lookup_2|].
    destruct (proj1 (Forall_forall _ _) Hwf l2) as [s2 Hs2];
      [by eapply list_elem_of_lookup_2|].
    simpl in Hi, Hj. rewrite Hs1 in Hi. rewrite Hs2 in Hj.
    simpl in Hi, Hj. apply (Hd i j l1 l2 s1 s2); try done. congruence.
  - intros Hnd i j l1 l2 s1 s2 Hi Hj Hs1 Hs2 Heq.
    apply (Hnd i j (Some (Session_getIdentifier s1)));
      rewrite store_ids_lookup.
    + rewrite Hi. simpl. by rewrite Hs1.
    + rewrite Hj. simpl. rewrite Hs2. simpl. by rewrite Heq.
Qed.

Lemma store_wf_sublist (h : heap) (ss ss' : list loc) :
  ss' `sublist_of` ss →
  Forall (λ l, is_Some (h !! l)) ss → Forall (λ l, is_Some (h !! l)) ss'.
Proof.
  intros Hsub Hwf. apply Forall_forall. intros l Hin.
  apply (proj1 (Forall_forall _ _) Hwf). by eapply sublist_subseteq.
Qed.

(** Removing entries keeps the store as the manager keeps it. *)
Lemma store_ok_sublist h this ss' :
  store_ok h this → ss' `sublist_of` sessions this →
  store_ok h (set_sessions ss' this).
Proof.
  intros (Hwf & Hnd & Hd) Hsub. unfold store_ok, store_wf. simpl.
  assert (Hwf' := store_wf_sublist h _ _ Hsub Hwf).
  split_and!; [done | by apply (sublist_NoDup _ _ Hnd) |].
  apply ids_distinct_NoDup; [done|].
  assert (Hids : store_ids h ss' `sublist_of` store_ids h (sessions this))
    by (unfold store_ids; by apply fmap_sublist).
  refine (sublist_NoDup _ _ _ Hids). by apply ids_distinct_NoDup.
Qed.

Lemma getSession_loop_app h token (a b : list loc) :
  getSession_loop h token (a ++ b)
    = match getSession_loop h token a with
      | Some None => getSession_loop h token b
      | found => found
      end.
Proof.
  induction a as [|l a IH]; simpl; [done|].
  destruct (h !! l) as [s|]; simpl; [|done].
  by destruct (decide (Session_getIdentifier s = token)).
Qed.

Lemma getSession_loop_ext (h h' : heap) token (ss : list loc) :
  (∀ l, l ∈ ss → h' !! l = h !! l) →
  getSession_loop h' token ss = getSession_loop h token ss.
Proof.
  induction ss as [|l ss IH]; intros Hext; simpl; [done|].
  rewrite (Hext l) by left.
  destruct (h !! l) as [s|]; simpl; [|done].
  destruct (decide (Session_getIdentifier s = token)); [done|].
  apply IH. intros l' Hin. apply Hext. by right.
Qed.

Lemma getSession_loop_is_Some h token (ss : list loc) :
  Forall (λ l, is_Some (h !! l)) ss → is_Some (getSession_loop h token ss).
Proof.
  induction ss as [|l ss IH]; intros Hwf; simpl; [done|].
  apply Forall_cons in Hwf as [[s Hs] Hwf]. rewrite Hs. simpl.
  destruct (decide (Session_getIdentifier s = token)); [done | by apply IH].
Qed.

Lemma id_absent_wf h id ss :
  id_absent h id ss → Forall (λ l, is_Some (h !! l)) ss.
Proof.
  intros Habs. eapply Forall_impl; [exact Habs|].
  intros l (s & Hs & _). by exists s.
Qed.

Lemma fresh_not_in_store (h : heap) (ss : list loc) :
  Forall (λ l, is_Some (h !! l)) ss →
  h !! fresh (dom h) = None ∧ fresh (dom h) ∉ ss.
Proof.
  intros Hwf.
  assert (Hnone : h !! fresh (dom h) = None)
    by (apply not_elem_of_dom, is_fresh).
  split; [done|]. intros Hin.
  destruct (proj1 (Forall_forall _ _) Hwf _ Hin) as [s Hs]. congruence.
Qed.

Lemma id_absent_ext (h h' : heap) id (ss : list loc) :
  (∀ l, l ∈ ss → h' !! l = h !! l) →
  id_absent h id ss → id_absent h' id ss.
Proof.
  intros Hext Habs. apply Forall_forall. intros l Hin.
  destruct (proj1 (Forall_forall _ _) Habs l Hin) as (s0 & Hs0 & Hne).
  exists s0. by rewrite Hext.
Qed.

(** X4.  When no session of the store carries the identifier that
    [uuidv4()] returns, [createSession] returns that identifier, allocates
    the session at a location that was free, appends it to the store, and
    [getSession] with the returned identifier finds it; for every other
    token [getSession] answers as before. *)
Theorem createSession_then_getSession (session : option loc) (uuid : string)
    (now_ms : Z) (h : heap) (this : SessionManager) :
  id_absent h uuid (sessions this) →
  ∃ l h' this',
    createSession session uuid now_ms h this = (uuid, h', this') ∧
    h !! l = None ∧
    h' !! l = Some (Session_new uuid now_ms) ∧
    (∀ l', l' ≠ l → h' !! l' = h !! l') ∧
    sessions this' = sessions this ++ [l] ∧
    getSession uuid h' this' = Some (Some l) ∧
    (∀ token, token ≠ uuid →
       getSession token h' this' = getSession token h this).
Proof.
  intros Habs. pose proof (id_absent_wf _ _ _ Habs) as Hwf.
  destruct (fresh_not_in_store h (sessions this) Hwf) as [Hnone Hnin].
  set (l := fresh (dom h)) in *.
  exists l, (<[l := Session_new uuid now_ms]> h),
         (set_sessions (sessions this ++ [l]) this).
  assert (Hext : ∀ l', l' ∈ sessions this →
            <[l := Session_new uuid now_ms]> h !! l' = h !! l').
  { intros l' Hin. apply lookup_insert_ne. by intros ->. }
  split_and!; try done.
  - apply lookup_insert_eq.
  - intros l' Hne. by apply lookup_insert_ne.
  - unfold getSession. simpl.
    eapply getSession_loop_found;
      [by eapply id_absent_ext | apply lookup_insert_eq | done].
  - intros token Hne. unfold getSession. simpl.
    rewrite getSession_loop_app, (getSession_loop_ext h) by done.
    destruct (getSession_loop h token (sessions this)) as [[l0|]|]; try done.
    simpl. rewrite lookup_insert_eq. simpl. by rewrite decide_False.
Qed.

Lemma createSession_then_getSession_witness :
  id_absent sample_heap "s2" (sessions sample_manager) ∧
  ∃ l h' this',
    createSession None "s2" 3000000 sample_heap sample_manager
      = ("s2"%string, h', this') ∧
    getSession "s2" h' this' = Some (Some l) ∧
    getSession "s0" h' this' = getSession "s0" sample_heap sample_manager.
Proof.
  assert (Habs : id_absent sample_heap "s2" (sessions sample_manager)).
  { repeat constructor; vm_compute; eexists; (split; [reflexivity|]);
      intros [=]. }
  split; [exact Habs|].
  destruct (createSession_then_getSession None "s2" 3000000 sample_heap
              sample_manager Habs)
    as (l & h' & this' & Hcall & _ & _ & _ & _ & Hget & Hother).
  exists l, h', this'. split; [exact Hcall|]. split; [exact Hget|].
  apply Hother. intros [=].
Defined.

Lemma createSession_store_ok (session : option loc) (uuid : string)
    (now_ms : Z) (h : heap) (this : SessionManager) :
  store_ok h this →
  id_absent h uuid (sessions this) →
  store_ok (createSession session uuid now_ms h this).1.2
           (createSession session uuid now_ms h this).2.
Proof.
  intros (Hwf & Hnd & Hd) Habs.
  destruct (fresh_not_in_store h (sessions this) Hwf) as [Hnone Hnin].
  unfold createSession. simpl. set (l := fresh (dom h)) in *.
  set (h' := <[l := Session_new uuid now_ms]> h).
  assert (Hext : ∀ l', l' ∈ sessions this → h' !! l' = h !! l').
  { intros l' Hin. apply lookup_insert_ne. by intros ->. }
  assert (Hwf' : Forall (λ l0, is_Some (h' !! l0)) (sessions this ++ [l])).
  { apply Forall_app. split.
    - apply Forall_forall. intros l' Hin. rewrite Hext by done.
      by apply (proj1 (Forall_forall _ _) Hwf).
    - repeat constructor. unfold h'. rewrite lookup_insert_eq. by eexists. }
  unfold store_ok, store_wf. simpl. split_and!; [done | |].
  - apply NoDup_app. split_and!; [done | | apply NoDup_singleton].
    intros x Hx ->%list_elem_of_singleton. done.
  - apply ids_distinct_NoDup; [done|].
    assert (Hsame : store_ids h' (sessions this) = store_ids h (sessions this)).
    { apply list_fmap_ext. intros i x Hix. rewrite Hext; [done|].
      by eapply list_elem_of_lookup_2. }
    assert (Hnew : store_ids h' [l] = [Some uuid]).
    { unfold store_ids, h'. simpl. by rewrite lookup_insert_eq. }
    unfold store_ids in *. rewrite fmap_app, Hsame, Hnew.
    apply NoDup_app. split_and!; [| | apply NoDup_singleton].
    + by apply ids_distinct_NoDup.
    + intros x Hx ->%list_elem_of_singleton.
      apply list_elem_of_fmap in Hx as (l' & Heq & Hin).
      destruct (proj1 (Forall_forall _ _) Habs l' Hin) as (s' & Hs' & Hne).
      rewrite Hs' in Heq. simpl in Heq. congruence.
Qed.

(** X5.  [createSession] with an identifier that no session of the store
    carries keeps the store as the manager keeps it: every reference points
    to a session, no reference and no identifier occurs twice. *)
Theorem createSession_keeps_store_ok (session : option loc) (uuid : string)
    (now_ms : Z) (h : heap) (this : SessionManager) :
  store_ok h this →
  id_absent h uuid (sessions this) →
  store_ok (createSession session uuid now_ms h this).1.2
           (createSession session uuid now_ms h this).2.
Proof. apply createSession_store_ok. Qed.

Lemma createSession_keeps_store_ok_witness :
  store_ok sample_heap sample_manager ∧
  id_absent sample_heap "s2" (sessions sample_manager) ∧
  sessions (createSession None "s2" 3000000 sample_heap sample_manager).2
    = [0%nat; 1%nat; 2%nat] ∧
  store_ok (createSession None "s2" 3000000 sample_heap sample_manager).1.2
           (createSession None "s2" 3000000 sample_heap sample_manager).2.
Proof.
  assert (Hok : store_ok sample_heap sample_manager).
  { split_and!; [exact sample_store_wf | | exact sample_ids_distinct].
    apply (bool_decide_unpack _); vm_compute; exact I. }
  assert (Habs : id_absent sample_heap "s2" (sessions sample_manager)).
  { repeat constructor; vm_compute; eexists; (split; [reflexivity|]);
      intros [=]. }
  split; [exact Hok|]. split; [exact Habs|]. split; [reflexivity|].
  exact (createSession_keeps_store_ok None "s2" 3000000 sample_heap
           sample_manager Hok Habs).
Defined.

(** ** SessionManager: removing a session *)

Lemma destroyCurrentSession_loop_found (l : loc) arr i (pre post : list loc) :
  l ∉ pre →
  destroyCurrentSession_loop (Some l) arr i (pre ++ l :: post)
    = (Return true, delete (i + length pre)%nat arr).
Proof.
  revert i. induction pre as [|l' pre IH]; intros i Hnin; simpl.
  - rewrite decide_True by done. by rewrite Nat.add_0_r.
  - rewrite decide_False by (intros [= ->]; apply Hnin; left).
    rewrite IH by (intros ?; apply Hnin; by right).
    do 2 f_equal. lia.
Qed.

(** X6.  [destroyCurrentSession] with a session of the store returns
    [true] and takes that session out of the store, leaving the others in
    their order; a second call with the same session throws
    'Session not found.' and changes nothing. *)
Theorem destroyCurrentSession_present (l : loc) (this : SessionManager) :
  NoDup (sessions this) →
  l ∈ sessions this →
  ∃ pre post this',
    sessions this = pre ++ l :: post ∧
    this' = set_sessions (pre ++ post) this ∧
    destroyCurrentSession (Some l) this = (Return true, this') ∧
    (l ∉ sessions this') ∧
    destroyCurrentSession (Some l) this'
      = (Throw (ThrowString "Session not found."), this').
Proof.
  intros Hnd Hin.
  apply list_elem_of_split in Hin as (pre & post & Hsplit).
  rewrite Hsplit in Hnd.
  apply NoDup_app in Hnd as (_ & Hpre & Hpost).
  apply NoDup_cons in Hpost as [Hpost _].
  assert (Hnin : l ∉ pre) by (intros Hl; apply (Hpre l Hl); left).
  exists pre, post, (set_sessions (pre ++ post) this).
  split_and!; try done.
  - unfold destroyCurrentSession.
    rewrite Hsplit at 2. rewrite destroyCurrentSession_loop_found by done.
    simpl. by rewrite Hsplit, delete_middle.
  - simpl. rewrite elem_of_app. tauto.
  - apply destroyCurrentSession_absent. simpl. rewrite elem_of_app. tauto.
Qed.

Lemma destroyCurrentSession_present_witness :
  NoDup (sessions sample_manager) ∧
  1%nat ∈ sessions sample_manager ∧
  ∃ this',
    destroyCurrentSession (Some 1%nat) sample_manager = (Return true, this') ∧
    sessions this' = [0%nat] ∧
    destroyCurrentSession (Some 1%nat) this'
      = (Throw (ThrowString "Session not found."), this').
Proof.
  assert (Hnd : NoDup (sessions sample_manager))
    by (apply (bool_decide_unpack _); vm_compute; exact I).
  assert (Hin : 1%nat ∈ sessions sample_manager)
    by (apply (bool_decide_unpack _); vm_compute; exact I).
  split; [exact Hnd|]. split; [exact Hin|].
  destruct (destroyCurrentSession_present 1%nat sample_manager Hnd Hin)
    as (pre & post & this' & _ & _ & Hcall & _ & Hagain).
  exists this'. split; [exact Hcall|]. split; [|exact Hagain].
  vm_compute in Hcall. injection Hcall as <-. reflexivity.
Defined.

Lemma first_with_id_or_absent (h : heap) (id : string) (ss : list loc) :
  Forall (λ l, is_Some (h !! l)) ss →
  id_absent h id ss ∨
  ∃ pre l s post,
    ss = pre ++ l :: post ∧ id_absent h id pre ∧
    h !! l = Some s ∧ Session_getIdentifier s = id.
Proof.
  induction ss as [|l ss IH]; intros Hwf; [left; constructor|].
  apply Forall_cons in Hwf as [[s Hs] Hwf].
  destruct (decide (Session_getIdentifier s = id)) as [Heq|Hne].
  - right. exists [], l, s, ss. split_and!; try done. constructor.
  - destruct (IH Hwf) as [Habs|(pre & l' & s' & post & -> & Hpre & Hs' & Hid)].
    + left. constructor; [by exists s | done].
    + right. exists (l :: pre), l', s', post. split_and!; try done.
      constructor; [by exists s | done].
Qed.

(** X7.  In a store as the manager keeps it, [destroySession] settles for
    every identifier, leaves the store as the manager keeps it, only
    removes, and does not change what [getSession] answers for any other
    token. *)
Theorem destroySession_keeps_others (session : option loc) (id : string)
    (h : heap) (this : SessionManager) :
  store_ok h this →
  ∃ r this',
    destroySession session id h this = Some (r, this') ∧
    store_ok h this' ∧
    sessions this' `sublist_of` sessions this ∧
    (∀ token, token ≠ id →
       getSession token h this' = getSession token h this).
Proof.
  intros Hok. pose proof Hok as (Hwf & _ & _).
  unfold destroySession, _destroySession, getSession.
  destruct (first_with_id_or_absent h id (sessions this) Hwf)
    as [Habs|(pre & l & s & post & Hsplit & Hpre & Hs & Hid)].
  - rewrite _destroySession_loop_absent by done. simpl.
    eexists _, _. split; [done|]. rewrite set_sessions_same. done.
  - assert (Hloop : _destroySession_loop h id (sessions this) 0 (sessions this)
                    = Some (true, pre ++ post)).
    { rewrite Hsplit at 2.
      rewrite (_destroySession_loop_found h id _ 0 pre l s post) by done.
      simpl. by rewrite Hsplit, delete_middle. }
    rewrite Hloop. simpl. rewrite Hsplit.
    assert (Hsub : pre ++ post `sublist_of` pre ++ l :: post)
      by (apply sublist_app; [done | by apply sublist_cons]).
    eexists _, _. split; [done|]. split_and!.
    + apply store_ok_sublist; [done | by rewrite Hsplit].
    + done.
    + intros token Hne. simpl. rewrite !getSession_loop_app.
      destruct (getSession_loop h token pre) as [[l0|]|]; try done.
      simpl. rewrite Hs. simpl. rewrite decide_False by congruence. done.
Qed.

Lemma destroySession_keeps_others_witness :
  store_ok sample_heap sample_manager ∧
  ∃ r this',
    destroySession None "s0" sample_heap sample_manager = Some (r, this') ∧
    store_ok sample_heap this' ∧
    getSession "s1" sample_heap this' = Some (Some 1%nat).
Proof.
  assert (Hok : store_ok sample_heap sample_manager).
  { split_and!; [exact sample_store_wf | | exact sample_ids_distinct].
    apply (bool_decide_unpack _); vm_compute; exact I. }
  split; [exact Hok|].
  destruct (destroySession_keeps_others None "s0" sample_heap sample_manager Hok)
    as (r & this' & Hcall & Hok' & _ & Hother).
  exists r, this'. split; [exact Hcall|]. split; [exact Hok'|].
  rewrite (Hother "s1"%string) by (intros [=]). reflexivity.
Defined.

(** ** SessionManager: sweeps *)

Lemma _gc_enabled now_ms (h : heap) this T :
  store_wf h this → _opts_timeout this = Some T →
  _gc now_ms h this
    = Some (setTimeout_gc 5000
              (set_sessions
                 (filter (λ l, idle_below h (now_ms `div` 1000) T l)
                    (sessions this)) this)).
Proof.
  intros Hwf HT. unfold _gc. rewrite HT.
  by rewrite _gc_loop_filter.
Qed.

Lemma store_ok_sessions (h : heap) this this' :
  sessions this' = sessions this → store_ok h this → store_ok h this'.
Proof. unfold store_ok, store_wf. by intros ->. Qed.

Lemma getSession_loop_filter (h : heap) token (P : loc → Prop)
    `{!∀ l, Decision (P l)} (ss : list loc) (l : loc) :
  getSession_loop h token ss = Some (Some l) → P l →
  getSession_loop h token (filter P ss) = Some (Some l).
Proof.
  induction ss as [|l' ss IH]; intros Hget HP; [done|].
  simpl in Hget. destruct (h !! l') as [s'|] eqn:Hs'; [|done].
  simpl in Hget. rewrite filter_cons.
  destruct (decide (Session_getIdentifier s' = token)) as [Heq|Hne].
  - simplify_eq. rewrite decide_True by done. simpl. rewrite Hs'. simpl.
    by rewrite decide_True.
  - destruct (decide (P l')); [|by apply IH].
    simpl. rewrite Hs'. simpl. rewrite decide_False by done. by apply IH.
Qed.

Lemma ids_distinct_same_id (h : heap) (ss : list loc) l l' s s' :
  ids_distinct h ss → l ∈ ss → l' ∈ ss →
  h !! l = Some s → h !! l' = Some s' →
  Session_getIdentifier s = Session_getIdentifier s' → l = l'.
Proof.
  intros Hd [i Hi]%list_elem_of_lookup [j Hj]%list_elem_of_lookup Hs Hs' Heq.
  assert (i = j) by (by eapply (Hd i j l l' s s')). congruence.
Qed.

(** X8.  In a store as the manager keeps it, a sweep settles, leaves the
    store as the manager keeps it, only removes, keeps the timeout, and
    [getSession] still finds every session it found before that the sweep
    has kept. *)
Theorem _gc_keeps_store_ok (now_ms : Z) (h : heap) (this : SessionManager) :
  store_ok h this →
  ∃ this',
    _gc now_ms h this = Some this' ∧
    store_ok h this' ∧
    sessions this' `sublist_of` sessions this ∧
    _opts_timeout this' = _opts_timeout this ∧
    (∀ token l, getSession token h this = Some (Some l) →
                l ∈ sessions this' →
                getSession token h this' = Some (Some l)).
Proof.
  intros Hok. pose proof Hok as (Hwf & _ & _).
  destruct (_opts_timeout this) as [T|] eqn:HT.
  - rewrite (_gc_enabled now_ms h this T) by done.
    eexists. split; [done|]. simpl. split_and!.
    + apply (store_ok_sessions h
               (set_sessions
                  (filter (λ l, idle_below h (now_ms `div` 1000) T l)
                     (sessions this)) this)); [done|].
      apply store_ok_sublist; [exact Hok | apply sublist_filter].
    + apply sublist_filter.
    + done.
    + intros token l Hget Hin. unfold getSession. simpl.
      apply getSession_loop_filter; [done|].
      by apply list_elem_of_filter in Hin as [? _].
  - rewrite _gc_disabled by done. exists this. by rewrite HT.
Qed.

Lemma _gc_keeps_store_ok_witness :
  store_ok sample_heap sample_manager ∧
  ∃ this',
    _gc 4601000 sample_heap sample_manager = Some this' ∧
    store_ok sample_heap this' ∧
    getSession "s1" sample_heap this' = Some (Some 1%nat).
Proof.
  assert (Hok : store_ok sample_heap sample_manager).
  { split_and!; [exact sample_store_wf | | exact sample_ids_distinct].
    apply (bool_decide_unpack _); vm_compute; exact I. }
  split; [exact Hok|].
  destruct (_gc_keeps_store_ok 4601000 sample_heap sample_manager Hok)
    as (this' & Hcall & Hok' & _ & _ & Hfound).
  exists this'. split; [exact Hcall|]. split; [exact Hok'|].
  apply Hfound; [reflexivity|].
  vm_compute in Hcall. injection Hcall as <-.
  apply (bool_decide_unpack _); vm_compute; exact I.
Defined.

(** X9.  A sweep followed by a later sweep leaves in the store what the
    later sweep alone leaves, as long as no session is used in between; in
    particular a sweep repeated at the same time removes nothing more. *)
Theorem _gc_twice (T now1_ms now2_ms : Z) (h : heap) (this : SessionManager) :
  store_wf h this →
  _opts_timeout this = Some T →
  now1_ms `div` 1000 ≤ now2_ms `div` 1000 →
  ∃ this1 this12 this2,
    _gc now1_ms h this = Some this1 ∧
    _gc now2_ms h this1 = Some this12 ∧
    _gc now2_ms h this = Some this2 ∧
    sessions this12 = sessions this2.
Proof.
  intros Hwf HT Hle.
  rewrite (_gc_enabled now1_ms h this T), (_gc_enabled now2_ms h this T)
    by done.
  eexists _, _, _. split; [done|].
  rewrite (_gc_enabled now2_ms h _ T); [|by eapply store_wf_sublist;
    [apply sublist_filter | exact Hwf] | done].
  split; [done|]. split; [done|]. simpl.
  apply list_filter_filter_l. intros l. unfold idle_below.
  destruct (h !! l) as [s|]; [|done].
  rewrite !bool_decide_spec. lia.
Qed.

Lemma _gc_twice_witness :
  store_wf sample_heap sample_manager ∧
  _opts_timeout sample_manager = Some 3600 ∧
  4601000 `div` 1000 ≤ 5000000 `div` 1000 ∧
  ∃ this1 this12,
    _gc 4601000 sample_heap sample_manager = Some this1 ∧
    _gc 5000000 sample_heap this1 = Some this12 ∧
    Some (sessions this12)
      = sessions <$> _gc 5000000 sample_heap sample_manager.
Proof.
  assert (Hle : 4601000 `div` 1000 ≤ 5000000 `div` 1000)
    by (vm_compute; discriminate).
  split; [exact sample_store_wf|]. split; [reflexivity|]. split; [exact Hle|].
  destruct (_gc_twice 3600 4601000 5000000 sample_heap sample_manager
              sample_store_wf eq_refl Hle)
    as (this1 & this12 & this2 & H1 & H12 & H2 & Heq).
  exists this1, this12. split; [exact H1|]. split; [exact H12|].
  rewrite H2. simpl. by rewrite Heq.
Defined.

(** X10.  A timeout that is zero or negative is not "no timeout": every
    sweep then empties the store of all sessions whose time of last use is
    not in the future. *)
Theorem _gc_nonpositive_timeout (T now_ms : Z) (h : heap)
    (this : SessionManager) :
  store_wf h this →
  _opts_timeout this = Some T →
  T ≤ 0 →
  (∀ l s, l ∈ sessions this → h !! l = Some s →
          Session_getUsedAt s ≤ now_ms `div` 1000) →
  ∃ this', _gc now_ms h this = Some this' ∧ sessions this' = [].
Proof.
  intros Hwf HT Hneg Hused.
  rewrite (_gc_enabled now_ms h this T) by done.
  eexists. split; [done|]. simpl.
  apply elem_of_nil_inv. intros l [Hidle Hin]%list_elem_of_filter.
  unfold idle_below in Hidle.
  destruct (h !! l) as [s|] eqn:Hs; [|done].
  apply bool_decide_unpack in Hidle.
  specialize (Hused l s Hin Hs). lia.
Qed.

Lemma _gc_nonpositive_timeout_witness :
  store_wf sample_heap sample_manager_zero ∧
  _opts_timeout sample_manager_zero = Some 0 ∧
  ∃ this',
    _gc 2000000 sample_heap sample_manager_zero = Some this' ∧
    sessions this' = [].
Proof.
  assert (Hwf : store_wf sample_heap sample_manager_zero)
    by exact sample_store_wf.
  split; [exact Hwf|]. split; [reflexivity|].
  apply (_gc_nonpositive_timeout 0 2000000 sample_heap sample_manager_zero
           Hwf eq_refl); [lia|].
  intros l s Hin Hs.
  apply list_elem_of_lookup in Hin as [i Hi].
  destruct i as [|[|i]]; vm_compute in Hi; simplify_eq;
    vm_compute in Hs; simplify_eq; vm_compute; discriminate.
Defined.

Lemma destroySession_absent session id (h : heap) (this : SessionManager) :
  id_absent h id (sessions this) →
  destroySession session id h this
    = Some (Throw (ThrowString "Session not found"), this).
Proof.
  intros Habs. unfold destroySession, _destroySession.
  rewrite _destroySession_loop_absent by done.
  simpl. by rewrite set_sessions_same.
Qed.

(** X11.  A session that a sweep finds idle for the timeout or longer is
    gone afterwards for every way of reaching it: [getSession] with its
    identifier returns [null], [destroyCurrentSession] with the session and
    [destroySession] with its identifier throw their "not found". *)
Theorem _gc_expired_not_found (T now_ms : Z) (session : option loc)
    (l : loc) (s : Session) (h : heap) (this : SessionManager) :
  store_ok h this →
  _opts_timeout this = Some T →
  l ∈ sessions this →
  h !! l = Some s →
  T ≤ now_ms `div` 1000 - Session_getUsedAt s →
  ∃ this',
    _gc now_ms h this = Some this' ∧
    getSession (Session_getIdentifier s) h this' = Some None ∧
    destroyCurrentSession (Some l) this'
      = (Throw (ThrowString "Session not found."), this') ∧
    destroySession session (Session_getIdentifier s) h this'
      = Some (Throw (ThrowString "Session not found"), this').
Proof.
  intros (Hwf & Hnd & Hd) HT Hin Hs Hidle.
  rewrite (_gc_enabled now_ms h this T) by done.
  eexists. split; [done|].
  set (kept := filter (λ l, idle_below h (now_ms `div` 1000) T l)
                 (sessions this)).
  assert (Hgone : l ∉ kept).
  { intros [Hl _]%list_elem_of_filter. unfold idle_below in Hl.
    rewrite Hs in Hl. apply bool_decide_unpack in Hl. lia. }
  assert (Habs : id_absent h (Session_getIdentifier s) kept).
  { apply Forall_forall. intros l' Hl'.
    pose proof Hl' as [_ Hin']%list_elem_of_filter.
    destruct (proj1 (Forall_forall _ _) Hwf l' Hin') as [s' Hs'].
    exists s'. split; [done|]. intros Heq.
    assert (l' = l) by (by eapply (ids_distinct_same_id h (sessions this))).
    congruence. }
  split_and!.
  - by apply getSession_loop_absent.
  - by apply destroyCurrentSession_absent.
  - by apply destroySession_absent.
Qed.

Lemma _gc_expired_not_found_witness :
  store_ok sample_heap sample_manager ∧
  ∃ this',
    _gc 4601000 sample_heap sample_manager = Some this' ∧
    getSession "s0" sample_heap this' = Some None ∧
    destroyCurrentSession (Some 0%nat) this'
      = (Throw (ThrowString "Session not found."), this').
Proof.
  assert (Hok : store_ok sample_heap sample_manager).
  { split_and!; [exact sample_store_wf | | exact sample_ids_distinct].
    apply (bool_decide_unpack _); vm_compute; exact I. }
  split; [exact Hok|].
  destruct (_gc_expired_not_found 3600 4601000 None 0%nat
              (Session_new "s0" 1000000) sample_heap sample_manager Hok)
    as (this' & Hcall & Hget & Hdestroy & _);
    [reflexivity
    | apply (bool_decide_unpack _); vm_compute; exact I
    | reflexivity
    | vm_compute; discriminate
    |].
  exists this'. split; [exact Hcall|]. split; [exact Hget | exact Hdestroy].
Defined.

(** ** SessionManager: subscribe and unsubscribe *)

Lemma promises_loop_unsubscribe (ts : list string) :
  ∀ (this : Session) (subs : list string) (promises : list (completion bool)),
    _subscriptions this = Some subs →
    promises_loop Session_unsubscribe ts this promises
      = (promises ++ replicate (length ts) (Return true),
         set_subscriptions (Some (filter (λ x, x ∉ ts) subs)) this).
Proof.
  induction ts as [|t ts IH]; intros this subs promises Hs; simpl.
  - rewrite app_nil_r, filter_all by (intros x _; apply not_elem_of_nil).
    by rewrite set_subscriptions_same.
  - unfold Session_unsubscribe at 1. rewrite Hs.
    rewrite (IH _ (filter (λ item, item ≠ t) subs)) by done.
    rewrite <- app_assoc. f_equal. unfold set_subscriptions. simpl.
    do 2 f_equal. rewrite list_filter_filter.
    apply list_filter_iff. intros x. rewrite not_elem_of_cons. tauto.
Qed.

(** X12.  [unsubscribe] with an array of topics, for a session whose
    subscription field is an array: the call returns [true] for every
    topic, and afterwards the field holds the former subscriptions that are
    not among the topics, in their former order. *)
Theorem unsubscribe_array_outcomes (l : loc) (s : Session)
    (subs ts : list string) (h : heap) :
  h !! l = Some s →
  _subscriptions s = Some subs →
  SessionManager_unsubscribe (Some l) (TopicArray ts) h
    = Some (Return (OutcomeArray (replicate (length ts) true)),
            <[l := set_subscriptions (Some (filter (λ x, x ∉ ts) subs)) s]> h).
Proof.
  intros Hl Hs. unfold SessionManager_unsubscribe, rpc_topics.
  rewrite Hl. simpl. rewrite (promises_loop_unsubscribe ts s subs) by done.
  simpl. rewrite <- fmap_replicate, Promise_all_Return. done.
Qed.

Lemma unsubscribe_array_outcomes_witness :
  sample_heap_one !! 5%nat = Some sample_session ∧
  _subscriptions sample_session = Some ["news"; "chat"]%string ∧
  SessionManager_unsubscribe (Some 5%nat)
    (TopicArray ["chat"; "sport"; "chat"]%string) sample_heap_one
    = Some (Return (OutcomeArray [true; true; true]),
            <[5%nat := set_subscriptions (Some ["news"%string]) sample_session]>
              sample_heap_one).
Proof.
  split; [reflexivity|]. split; [reflexivity|].
  exact (unsubscribe_array_outcomes 5%nat sample_session
           ["news"; "chat"]%string ["chat"; "sport"; "chat"]%string
           sample_heap_one eq_refl eq_refl).
Defined.

(** X13.  For [subscribe] and for [unsubscribe], an array of one topic
    does to the session what the topic as a string does, and returns the
    same boolean in an array of one, or throws the same; an empty array
    returns the empty array and changes nothing, whatever the
    subscription field holds. *)
Theorem rpc_topics_one_or_none (session : option loc) (t : string) (h : heap) :
  (SessionManager_subscribe session (TopicArray [t]) h
     = (λ r, (as_array r.1, r.2)) <$> SessionManager_subscribe session (Topic t) h) ∧
  (SessionManager_unsubscribe session (TopicArray [t]) h
     = (λ r, (as_array r.1, r.2)) <$> SessionManager_unsubscribe session (Topic t) h) ∧
  (∀ l, is_Some (h !! l) →
     SessionManager_subscribe (Some l) (TopicArray []) h
       = Some (Return (OutcomeArray []), h) ∧
     SessionManager_unsubscribe (Some l) (TopicArray []) h
       = Some (Return (OutcomeArray []), h)).
Proof.
  assert (Hone : ∀ method,
    rpc_topics method session (TopicArray [t]) h
      = (λ r, (as_array r.1, r.2)) <$> rpc_topics method session (Topic t) h).
  { intros method. unfold rpc_topics.
    destruct session as [l|]; [|done].
    destruct (h !! l) as [s|]; [|done]. simpl.
    destruct (method t s) as [[b|e] s']; done. }
  split; [apply Hone|]. split; [apply Hone|].
  intros l [s Hs]. unfold SessionManager_subscribe, SessionManager_unsubscribe,
    rpc_topics. rewrite Hs. simpl. by rewrite insert_id.
Qed.

Lemma rpc_topics_one_or_none_witness :
  is_Some (sample_heap !! 0%nat) ∧
  SessionManager_subscribe (Some 0%nat) (TopicArray []) sample_heap
    = Some (Return (OutcomeArray []), sample_heap).
Proof.
  assert (Hl : is_Some (sample_heap !! 0%nat)) by (vm_compute; eauto).
  split; [exact Hl|].
  exact (proj1 (proj2 (proj2 (rpc_topics_one_or_none None "a" sample_heap))
                  0%nat Hl)).
Defined.

(** ** SessionManager: listing *)





(** ** SessionManager: the registration of the RPC methods *)

(** X15.  Whatever the prefix, [registerRpcMethods] registers eight
    methods under eight different names, and makes one name callable
    without a session: the one under which [createSession] is
    registered. *)
Theorem registerRpcMethods_names (prefix : option string) :
  let calls := registerRpcMethods prefix in
  NoDup (registered_names calls) ∧
  length (registered_names calls) = 8%nat ∧
  ∃ name specs,
    always_allowed calls = [name] ∧
    addMethod name bound_createSession specs ∈ calls.
Proof.
  unfold registerRpcMethods.
  set (p := if decide (default "session"%string prefix ≠ ""%string)
            then default "session"%string prefix +:+ "/"
            else default "session"%string prefix).
  simpl. split_and!.
  - change (NoDup (String.app p <$>
      ["create"; "destroy"; "state"; "permissions"; "push/subscribe";
       "push/unsubscribe"; "management/list"; "management/destroy"]%string)).
    apply (NoDup_fmap_2 _).
    apply (bool_decide_unpack _). by vm_compute.
  - done.
  - eexists _, _. split; [done|]. left.
Qed.

(** ** The two ways of removing a session *)

(** X16.  In a store as the manager keeps it, [destroyCurrentSession] with
    a session of the store and [destroySession] with the identifier of that
    session both return [true] and leave the same store.  For a session
    that is not in the store and whose identifier no session of the store
    carries, both throw, the one 'Session not found.' with a full stop and
    the other "Session not found" without. *)
Theorem destroy_by_reference_or_by_id (session : option loc) (l : loc)
    (s : Session) (h : heap) (this : SessionManager) :
  store_ok h this →
  h !! l = Some s →
  (l ∈ sessions this →
   ∃ this',
     destroyCurrentSession (Some l) this = (Return true, this') ∧
     destroySession session (Session_getIdentifier s) h this
       = Some (Return true, this')) ∧
  (id_absent h (Session_getIdentifier s) (sessions this) →
   destroyCurrentSession (Some l) this
     = (Throw (ThrowString "Session not found."), this) ∧
   destroySession session (Session_getIdentifier s) h this
     = Some (Throw (ThrowString "Session not found"), this)).
Proof.
  intros (Hwf & Hnd & Hd) Hs. split.
  - intros Hin.
    destruct (first_with_id h _ _ l s Hwf Hd Hin Hs eq_refl)
      as (pre & post & Hsplit & Hpre & Hpost).
    assert (Hnin : l ∉ pre).
    { rewrite Hsplit in Hnd. apply NoDup_app in Hnd as (_ & Hnd & _).
      intros Hl. apply (Hnd l Hl). left. }
    exists (set_sessions (pre ++ post) this). split.
    + unfold destroyCurrentSession. rewrite Hsplit at 2.
      rewrite destroyCurrentSession_loop_found by done.
      simpl. by rewrite Hsplit, delete_middle.
    + unfold destroySession, _destroySession. rewrite Hsplit at 2.
      rewrite (_destroySession_loop_found h _ _ 0 pre l s post) by done.
      simpl. by rewrite Hsplit, delete_middle.
  - intros Habs. split; [|by apply destroySession_absent].
    apply destroyCurrentSession_absent. intros Hin.
    destruct (proj1 (Forall_forall _ _) Habs l Hin) as (s0 & Hs0 & Hne).
    rewrite Hs in Hs0. injection Hs0 as <-. by destruct Hne.
Qed.

Lemma destroy_by_reference_or_by_id_witness :
  store_ok sample_heap sample_manager ∧
  sample_heap !! 1%nat = Some (Session_new "s1" 2000000) ∧
  1%nat ∈ sessions sample_manager ∧
  ∃ this',
    destroyCurrentSession (Some 1%nat) sample_manager = (Return true, this') ∧
    destroySession None "s1" sample_heap sample_manager
      = Some (Return true, this').
Proof.
  assert (Hok : store_ok sample_heap sample_manager).
  { split_and!; [exact sample_store_wf | | exact sample_ids_distinct].
    apply (bool_decide_unpack _); vm_compute; exact I. }
  assert (Hin : 1%nat ∈ sessions sample_manager)
    by (apply (bool_decide_unpack _); vm_compute; exact I).
  split; [exact Hok|]. split; [reflexivity|]. split; [exact Hin|].
  exact (proj1 (destroy_by_reference_or_by_id None 1%nat
                  (Session_new "s1" 2000000) sample_heap sample_manager
                  Hok eq_refl) Hin).
Defined.

(** ** The states the classes reach *)

Lemma destroyCurrentSession_loop_sublist session (arr : list loc) i rest :
  (destroyCurrentSession_loop session arr i rest).2 `sublist_of` arr.
Proof.
  revert i. induction rest as [|l rest IH]; intros i; simpl; [done|].
  destruct (decide (Some l = session)); [apply sublist_delete | apply IH].
Qed.

Lemma _destroySession_loop_sublist (h : heap) id (arr : list loc) i rest b arr' :
  _destroySession_loop h id arr i rest = Some (b, arr') →
  arr' `sublist_of` arr.
Proof.
  revert i. induction rest as [|l rest IH]; intros i; simpl.
  - by intros [= _ <-].
  - destruct (h !! l) as [s|]; [|done]. simpl.
    destruct (decide (Session_getIdentifier s = id)); [|apply IH].
    intros [= _ <-]. apply sublist_delete.
Qed.

Lemma store_ok_update (h : heap) this l s s' :
  h !! l = Some s → _id s' = _id s →
  store_ok h this → store_ok (<[l := s']> h) this.
Proof.
  intros Hs Hid (Hwf & Hnd & Hd).
  assert (Hwf' : store_wf (<[l := s']> h) this).
  { eapply Forall_impl; [exact Hwf|]. intros l0 Hl0. simpl.
    destruct (decide (l = l0)) as [->|Hne].
    - rewrite lookup_insert_eq. by eexists.
    - by rewrite lookup_insert_ne. }
  split_and!; [done | done |].
  apply ids_distinct_NoDup; [done|].
  replace (store_ids (<[l := s']> h) (sessions this))
    with (store_ids h (sessions this)); [by apply ids_distinct_NoDup|].
  apply list_fmap_ext. intros i l0 _.
  destruct (decide (l = l0)) as [->|Hne].
  - rewrite lookup_insert_eq, Hs. simpl.
    unfold Session_getIdentifier. by rewrite Hid.
  - by rewrite lookup_insert_ne.
Qed.

Lemma promises_loop_unchanged method (ts : list string) :
  ∀ (this : Session) (promises : list (completion bool)),
    (∀ t, (method t this).2 = this) →
    (promises_loop method ts this promises).2 = this.
Proof.
  induction ts as [|t ts IH]; intros this promises Hm; simpl; [done|].
  specialize (Hm t) as Hmt. destruct (method t this) as [p this'].
  simpl in Hmt. subst this'. by apply IH.
Qed.

Lemma rpc_topics_null method session params (h : heap) r h' :
  (∀ t s, _subscriptions s = None → (method t s).2 = s) →
  (∀ l s, h !! l = Some s → _subscriptions s = None) →
  rpc_topics method session params h = Some (r, h') → h' = h.
Proof.
  intros Hm Hnull. unfold rpc_topics.
  destruct session as [l|]; [|by intros [= _ <-]].
  destruct (h !! l) as [s|] eqn:Hs; [|done]. simpl.
  pose proof (Hnull l s Hs) as Hn.
  destruct params as [t|ts].
  - pose proof (Hm t s Hn) as Ht. destruct (method t s) as [p s'].
    simpl in Ht. subst s'. intros [= _ <-]. by apply insert_id.
  - pose proof (promises_loop_unchanged method ts s [] (λ t, Hm t s Hn)) as Ht.
    destruct (promises_loop method ts s []) as [ps s']. simpl in Ht. subst s'.
    intros [= _ <-]. by apply insert_id.
Qed.

Lemma Session_run_id this c : _id (Session_run this c) = _id this.
Proof.
  destruct c; simpl; try done.
  - by destruct (Session_subscribe_fields subject this) as (? & _).
  - by destruct (Session_unsubscribe_fields subject this) as (? & _).
Qed.

(** X17.  In every state that a manager reaches through the methods of the
    two classes, the store is as the manager keeps it and the timeout is
    the one given to the constructor; without a timeout no sweep is ever
    scheduled; and the subscription field of every session is still
    [null], so that [subscribe] and [unsubscribe] with a topic, and
    [pushIfSubscribed], throw a [TypeError] for every session there is, and
    [pushIfSubscribed] sends nothing. *)
Theorem reachable_invariants (timeout : option Z) (h : heap)
    (this : SessionManager) :
  reachable timeout h this →
  store_ok h this ∧
  _opts_timeout this = timeout ∧
  (timeout = None → gc_timers this = []) ∧
  (∀ l s, h !! l = Some s → Session_getSubscriptions s = None) ∧
  (∀ l t, is_Some (h !! l) →
     SessionManager_subscribe (Some l) (Topic t) h = Some (Throw TypeError, h) ∧
     SessionManager_unsubscribe (Some l) (Topic t) h = Some (Throw TypeError, h)) ∧
  (∀ JSON_stringify l t m w, is_Some (h !! l) →
     SessionManager_pushIfSubscribed JSON_stringify (Some l) t m h w
       = Some (Throw TypeError, w)).
Proof.
  intros Hreach.
  assert (Hinv : store_ok h this ∧ _opts_timeout this = timeout ∧
                 (timeout = None → gc_timers this = []) ∧
                 (∀ l s, h !! l = Some s → _subscriptions s = None)).
  { induction Hreach
      as [ | h this session uuid now_ms _ (Hok & HT & Htm & Hnull) Habs
         | h this session _ (Hok & HT & Htm & Hnull)
         | h this session id r this' _ (Hok & HT & Htm & Hnull) Hcall
         | h this now_ms this' _ (Hok & HT & Htm & Hnull) Hcall
         | h this session params r h' _ (Hok & HT & Htm & Hnull) Hcall
         | h this session params r h' _ (Hok & HT & Htm & Hnull) Hcall
         | h this l s c _ (Hok & HT & Htm & Hnull) Hs ].
    - split_and!.
      + destruct timeout; (split_and!; [constructor | constructor |]);
          intros i j l1 l2 s1 s2 Hi; destruct i; discriminate Hi.
      + by destruct timeout.
      + by intros ->.
      + intros l s Hl. by rewrite lookup_empty in Hl.
    - split_and!; [by apply createSession_store_ok | done | done |].
      intros l s. simpl.
      destruct (decide (fresh (dom h) = l)) as [<-|Hne].
      + rewrite lookup_insert_eq. by intros [= <-].
      + rewrite lookup_insert_ne by done. apply Hnull.
    - unfold destroyCurrentSession.
      pose proof (destroyCurrentSession_loop_sublist session
                    (sessions this) 0 (sessions this)) as Hsub.
      destruct (destroyCurrentSession_loop session (sessions this) 0
                  (sessions this)) as [r arr].
      simpl in *. split_and!; [by apply store_ok_sublist | done | done | done].
    - unfold destroySession, _destroySession in Hcall.
      destruct (_destroySession_loop h id (sessions this) 0 (sessions this))
        as [[b arr]|] eqn:Hloop; [|done].
      apply _destroySession_loop_sublist in Hloop. simpl in Hcall.
      assert (this' = set_sessions arr this) as ->
        by (destruct b; by injection Hcall as _ <-).
      split_and!; [by apply store_ok_sublist | done | done | done].
    - pose proof Hok as (Hwf & _ & _).
      destruct (_opts_timeout this) as [T|] eqn:HTo.
      + rewrite (_gc_enabled now_ms h this T) in Hcall by done.
        injection Hcall as <-.
        split_and!; [| simpl; by rewrite HTo | | done].
        * apply (store_ok_sessions h
                   (set_sessions
                      (filter (λ l, idle_below h (now_ms `div` 1000) T l)
                         (sessions this)) this)); [done|].
          apply store_ok_sublist; [exact Hok | apply sublist_filter].
        * intros ->. done.
      + rewrite _gc_disabled in Hcall by done. injection Hcall as <-.
        by rewrite HTo.
    - apply (rpc_topics_null Session_subscribe) in Hcall as ->;
        [done | | done].
      intros t s Hn. by rewrite Session_subscribe_null.
    - apply (rpc_topics_null Session_unsubscribe) in Hcall as ->;
        [done | | done].
      intros t s Hn. by rewrite Session_unsubscribe_null.
    - split_and!; [| done | done |].
      + eapply store_ok_update; [exact Hs | apply Session_run_id | done].
      + intros l0 s0.
        destruct (decide (l = l0)) as [<-|Hne].
        * rewrite lookup_insert_eq. intros [= <-].
          apply (Session_run_null s [c]). by eapply Hnull.
        * rewrite lookup_insert_ne by done. apply Hnull. }
  destruct Hinv as (Hok & HT & Htm & Hnull).
  split_and!; try done.
  - intros l t [s Hs]. pose proof (Hnull l s Hs) as Hn.
    unfold SessionManager_subscribe, SessionManager_unsubscribe, rpc_topics.
    rewrite Hs. simpl.
    rewrite Session_subscribe_null, Session_unsubscribe_null by done.
    by rewrite insert_id.
  - intros JSON_stringify l t m w [s Hs].
    unfold SessionManager_pushIfSubscribed, Session_pushIfSubscribed.
    rewrite Hs. simpl. by rewrite (Hnull l s Hs).
Qed.

Lemma reachable_invariants_witness :
  reachable (Some 3600) sample_heap sample_manager ∧
  SessionManager_subscribe (Some 0%nat) (Topic "a") sample_heap
    = Some (Throw TypeError, sample_heap).
Proof.
  assert (Hreach : reachable (Some 3600) sample_heap sample_manager).
  { apply (reachable_createSession (Some 3600) _ _ None "s1" 2000000).
    - apply (reachable_createSession (Some 3600) ∅ _ None "s0" 1000000).
      + apply reachable_new.
      + constructor.
    - repeat constructor. vm_compute. eexists. split; [reflexivity|].
      intros [=]. }
  split; [exact Hreach|].
  destruct (reachable_invariants (Some 3600) sample_heap sample_manager Hreach)
    as (_ & _ & _ & _ & Hthrows & _).
  apply Hthrows. vm_compute. eauto.
Defined.
